(** * headtrackr.Tracker: the tracking session controller of src/main.js

    A shallow embedding of the wrapper object [headtrackr.Tracker]: its
    closure variables, its methods [init], [start], [stop], [getFOV], the
    per-frame step [track] and the readiness probe [starter], followed by
    the properties of the controller.

    JavaScript numbers are IEEE-754 binary64 values and are embedded as
    Rocq's primitive floats; clock readings are integers and are embedded
    in [Z]; strings are [string].  The collaborators that live in other
    files of the library (face tracker, smoother, head-position estimator)
    appear as handles recording what the controller passed to them, and
    every call the controller makes on them is logged as an [Event]. *)

From Stdlib Require Import PrimFloat ZArith List String Bool Arith Lia.
Import ListNotations.
Local Open Scope string_scope.
Local Open Scope list_scope.
Set Warnings "-inexact-float".

(** ** JavaScript numbers *)

Module JS.

Definition number := float.

(** [a == b] on two numbers. *)
Definition eq (a b : number) : bool := PrimFloat.eqb a b.

(** [a < b] on two numbers. *)
Definition lt (a b : number) : bool := PrimFloat.ltb a b.

(** One comparison step of [Math.max]: NaN is contagious and [+0] is
    larger than [-0]. *)
Definition max2 (a b : number) : number :=
  if PrimFloat.is_nan a then a
  else if PrimFloat.is_nan b then b
  else if PrimFloat.ltb a b then b
  else if PrimFloat.ltb b a then a
  else if PrimFloat.get_sign a then b else a.

(** One comparison step of [Math.min]: NaN is contagious and [-0] is
    smaller than [+0]. *)
Definition min2 (a b : number) : number :=
  if PrimFloat.is_nan a then a
  else if PrimFloat.is_nan b then b
  else if PrimFloat.ltb b a then b
  else if PrimFloat.ltb a b then a
  else if PrimFloat.get_sign a then a else b.

(** [Math.max.apply(null, l)]; the empty call yields [-Infinity]. *)
Definition Math_max (l : list number) : number :=
  fold_left max2 l PrimFloat.neg_infinity.

(** [Math.min.apply(null, l)]; the empty call yields [+Infinity]. *)
Definition Math_min (l : list number) : number :=
  fold_left min2 l PrimFloat.infinity.

Definition Math_sqrt (a : number) : number := PrimFloat.sqrt a.

End JS.

Arguments JS.eq : simpl never.
Arguments JS.lt : simpl never.
Arguments JS.Math_max : simpl never.
Arguments JS.Math_min : simpl never.
Arguments JS.Math_sqrt : simpl never.

(** ** Data *)

(** The tracking object returned by [facetracker.getTrackingObject]. *)
Module FaceObj.
Record t := mk {
  detection : string;      (* "WB", "VJ" or "CS" *)
  confidence : JS.number;
  x : JS.number;
  y : JS.number;
  width : JS.number;
  height : JS.number;
  angle : JS.number
}.
End FaceObj.

(** The canvas handed to [init]; only its dimensions are read. *)
Module Canvas.
Record t := mk { width : JS.number; height : JS.number }.
End Canvas.

(** The constructor's [params] once the defaults of lines 35-52 are
    filled in.  [debug] is [true] when a canvas element was passed. *)
Module Params.
Record t := mk {
  ui : bool;
  smoothing : bool;
  retryDetection : bool;
  debug : bool;
  detectionInterval : JS.number;
  cameraOffset : JS.number;
  calcAngles : bool;
  headPosition : bool;
  fov : option JS.number
}.

(** The argument object as the caller wrote it: every key may be
    absent; [debug] carries the [tagName] of the element passed. *)
Record arg := mk_arg {
  a_ui : option bool;
  a_smoothing : option bool;
  a_retryDetection : option bool;
  a_debug : option string;
  a_detectionInterval : option JS.number;
  a_cameraOffset : option JS.number;
  a_calcAngles : option bool;
  a_headPosition : option bool;
  a_fov : option JS.number
}.

Definition or_default {A} (o : option A) (d : A) : A :=
  match o with Some v => v | None => d end.

(** Lines 35-52. *)
Definition defaults (a : arg) : t :=
  {| ui := or_default (a_ui a) true;
     smoothing := or_default (a_smoothing a) true;
     retryDetection := or_default (a_retryDetection a) true;
     debug := match a_debug a with
              | None => false
              | Some tag => String.eqb tag "CANVAS"
              end;
     detectionInterval := or_default (a_detectionInterval a) 20%float;
     cameraOffset := or_default (a_cameraOffset a) 11.5%float;
     calcAngles := or_default (a_calcAngles a) false;
     headPosition := or_default (a_headPosition a) true;
     fov := a_fov a |}.

Definition no_arg : arg :=
  mk_arg None None None None None None None None None.
End Params.

(** Handle on a [headtrackr.facetrackr.Tracker]: the options it was built
    with ([whitebalancing] is absent from the first construction), the
    canvas passed to its [init], and how many times [track()] was called
    on it. *)
Module FaceTracker.
Record t := mk {
  whitebalancing : option bool;
  debug : bool;
  calcAngles : bool;
  canvas : option Canvas.t;
  frames : nat
}.

Definition new (wb : option bool) (dbg ca : bool) : t := mk wb dbg ca None 0.
Definition init (c : Canvas.t) (f : t) : t :=
  mk (whitebalancing f) (debug f) (calcAngles f) (Some c) (frames f).
Definition track (f : t) : t :=
  mk (whitebalancing f) (debug f) (calcAngles f) (canvas f) (S (frames f)).
End FaceTracker.

(** Modelled from the spec: [headtrackr.Smoother] is defined in another
    file of the library.  The spec gives its contract as
    [construct(decay, window)], [is_primed()], [init(sample)] (after which
    the filter is primed) and [apply(sample)]; the numerical state of the
    filter is not represented, and what [apply] returns is an input of the
    step. *)
Module Smoother.
Record t := mk { alpha : JS.number; interval : JS.number; initialized : bool }.

Definition new (a i : JS.number) : t := mk a i false.
Definition init (s : t) : t := mk (alpha s) (interval s) true.
End Smoother.

(** Handle on a [headtrackr.headposition.Tracker]: the arguments of its
    construction.  [fov = None] is the call of line 192, which lets the
    estimator work the field of view out by itself. *)
Module HeadPosition.
Record t := mk {
  first : FaceObj.t;
  canvasWidth : JS.number;
  canvasHeight : JS.number;
  fov : option JS.number;
  distance_from_camera_to_screen : JS.number
}.
End HeadPosition.

(** The two functions handed to [window.setTimeout]. *)
Inductive Callback := CbTrack | CbStarter.

Module Timer.
Record t := mk { id : nat; callback : Callback; delay : JS.number }.
End Timer.

(** What the controller does to the outside world. *)
Inductive Event :=
| Dispatch (message : string)             (* document.dispatchEvent(statusEvent) *)
| FaceTrackerNew (f : FaceTracker.t)      (* new headtrackr.facetrackr.Tracker(..) *)
| FaceTrackerTrack                        (* facetracker.track() *)
| DebugDetected (f : FaceObj.t)           (* lines 121-122 *)
| DebugTracked (f : FaceObj.t)            (* lines 133-138 *)
| SmootherInit (f : FaceObj.t)            (* smoother.init(faceObj) *)
| SmootherSmooth (f : FaceObj.t)          (* smoother.smooth(faceObj) *)
| HeadPositionNew (h : HeadPosition.t)    (* new headtrackr.headposition.Tracker(..) *)
| HeadPositionGetFOV (v : JS.number)      (* headposition.getFOV() returned v *)
| HeadPositionTrack (f : FaceObj.t).      (* headposition.track(faceObj) *)

(** The status messages among a list of events, in order. *)
Fixpoint statuses (l : list Event) : list string :=
  match l with
  | [] => []
  | Dispatch m :: l' => m :: statuses l'
  | _ :: l' => statuses l'
  end.

(** The head-position estimators constructed among a list of events. *)
Fixpoint bootstraps (l : list Event) : list HeadPosition.t :=
  match l with
  | [] => []
  | HeadPositionNew h :: l' => h :: bootstraps l'
  | _ :: l' => bootstraps l'
  end.

(** The values [headposition.getFOV()] returned among a list of events. *)
Fixpoint calibrations (l : list Event) : list JS.number :=
  match l with
  | [] => []
  | HeadPositionGetFOV v :: l' => v :: calibrations l'
  | _ :: l' => calibrations l'
  end.

(** The samples handed to [smoother.init] among a list of events. *)
Fixpoint smoother_inits (l : list Event) : list FaceObj.t :=
  match l with
  | [] => []
  | SmootherInit f :: l' => f :: smoother_inits l'
  | _ :: l' => smoother_inits l'
  end.

(** ** The closure of one Tracker

    The variables of lines 54-63, the two properties [this.status] and
    [this.initialized], the global [canvasElement] that [init] assigns,
    and the browser's pending timers.  The local [initialized] of line 57,
    [canvasContext] and the midpoints [x], [y] are written and never read;
    they are left out. *)
Module W.
Record t := mk {
  canvasElement : option Canvas.t;     (* None: not assigned yet *)
  ui : bool;                           (* a headtrackr.Ui was allocated *)
  smoother : option Smoother.t;
  facetracker : option FaceTracker.t;
  headposition : option HeadPosition.t;
  detector : option nat;               (* handle of the last setTimeout(track) *)
  detectionTimer : option Z;
  fov : JS.number;
  run : bool;
  faceFound : bool;
  firstRun : bool;
  headDiagonal : list JS.number;
  status : string;                     (* this.status *)
  this_initialized : bool;             (* this.initialized; undefined is false *)
  timers : list Timer.t;               (* pending timeouts, oldest first *)
  next_timer : nat                     (* the next handle setTimeout returns *)
}.

Definition set_canvasElement v w := mk v (ui w) (smoother w) (facetracker w) (headposition w) (detector w) (detectionTimer w) (fov w) (run w) (faceFound w) (firstRun w) (headDiagonal w) (status w) (this_initialized w) (timers w) (next_timer w).
Definition set_ui v w := mk (canvasElement w) v (smoother w) (facetracker w) (headposition w) (detector w) (detectionTimer w) (fov w) (run w) (faceFound w) (firstRun w) (headDiagonal w) (status w) (this_initialized w) (timers w) (next_timer w).
Definition set_smoother v w := mk (canvasElement w) (ui w) v (facetracker w) (headposition w) (detector w) (detectionTimer w) (fov w) (run w) (faceFound w) (firstRun w) (headDiagonal w) (status w) (this_initialized w) (timers w) (next_timer w).
Definition set_facetracker v w := mk (canvasElement w) (ui w) (smoother w) v (headposition w) (detector w) (detectionTimer w) (fov w) (run w) (faceFound w) (firstRun w) (headDiagonal w) (status w) (this_initialized w) (timers w) (next_timer w).
Definition set_headposition v w := mk (canvasElement w) (ui w) (smoother w) (facetracker w) v (detector w) (detectionTimer w) (fov w) (run w) (faceFound w) (firstRun w) (headDiagonal w) (status w) (this_initialized w) (timers w) (next_timer w).
Definition set_detector v w := mk (canvasElement w) (ui w) (smoother w) (facetracker w) (headposition w) v (detectionTimer w) (fov w) (run w) (faceFound w) (firstRun w) (headDiagonal w) (status w) (this_initialized w) (timers w) (next_timer w).
Definition set_detectionTimer v w := mk (canvasElement w) (ui w) (smoother w) (facetracker w) (headposition w) (detector w) v (fov w) (run w) (faceFound w) (firstRun w) (headDiagonal w) (status w) (this_initialized w) (timers w) (next_timer w).
Definition set_fov v w := mk (canvasElement w) (ui w) (smoother w) (facetracker w) (headposition w) (detector w) (detectionTimer w) v (run w) (faceFound w) (firstRun w) (headDiagonal w) (status w) (this_initialized w) (timers w) (next_timer w).
Definition set_run v w := mk (canvasElement w) (ui w) (smoother w) (facetracker w) (headposition w) (detector w) (detectionTimer w) (fov w) v (faceFound w) (firstRun w) (headDiagonal w) (status w) (this_initialized w) (timers w) (next_timer w).
Definition set_faceFound v w := mk (canvasElement w) (ui w) (smoother w) (facetracker w) (headposition w) (detector w) (detectionTimer w) (fov w) (run w) v (firstRun w) (headDiagonal w) (status w) (this_initialized w) (timers w) (next_timer w).
Definition set_firstRun v w := mk (canvasElement w) (ui w) (smoother w) (facetracker w) (headposition w) (detector w) (detectionTimer w) (fov w) (run w) (faceFound w) v (headDiagonal w) (status w) (this_initialized w) (timers w) (next_timer w).
Definition set_headDiagonal v w := mk (canvasElement w) (ui w) (smoother w) (facetracker w) (headposition w) (detector w) (detectionTimer w) (fov w) (run w) (faceFound w) (firstRun w) v (status w) (this_initialized w) (timers w) (next_timer w).
Definition set_status v w := mk (canvasElement w) (ui w) (smoother w) (facetracker w) (headposition w) (detector w) (detectionTimer w) (fov w) (run w) (faceFound w) (firstRun w) (headDiagonal w) v (this_initialized w) (timers w) (next_timer w).
Definition set_this_initialized v w := mk (canvasElement w) (ui w) (smoother w) (facetracker w) (headposition w) (detector w) (detectionTimer w) (fov w) (run w) (faceFound w) (firstRun w) (headDiagonal w) (status w) v (timers w) (next_timer w).
Definition set_timers v w := mk (canvasElement w) (ui w) (smoother w) (facetracker w) (headposition w) (detector w) (detectionTimer w) (fov w) (run w) (faceFound w) (firstRun w) (headDiagonal w) (status w) (this_initialized w) v (next_timer w).
Definition set_next_timer v w := mk (canvasElement w) (ui w) (smoother w) (facetracker w) (headposition w) (detector w) (detectionTimer w) (fov w) (run w) (faceFound w) (firstRun w) (headDiagonal w) (status w) (this_initialized w) (timers w) v.

(** Lines 54-63: the closure right after [new headtrackr.Tracker(..)]. *)
Definition fresh : t :=
  {| canvasElement := None; ui := false; smoother := None;
     facetracker := None; headposition := None; detector := None;
     detectionTimer := None; fov := 0%float; run := false;
     faceFound := false; firstRun := true; headDiagonal := [];
     status := ""; this_initialized := false;
     timers := []; next_timer := 0 |}.
End W.

(** ** Computations: state, event log and exceptions *)

Inductive Res (A : Type) :=
| Done (a : A) (w : W.t) (out : list Event)
| Thrown (e : string) (w : W.t) (out : list Event).
Arguments Done {A} a w out.
Arguments Thrown {A} e w out.

Definition world_of {A} (r : Res A) : W.t :=
  match r with Done _ w _ => w | Thrown _ w _ => w end.

Definition out_of {A} (r : Res A) : list Event :=
  match r with Done _ _ o => o | Thrown _ _ o => o end.

Definition value_of {A} (r : Res A) : option A :=
  match r with Done a _ _ => Some a | Thrown _ _ _ => None end.

Definition M (A : Type) := W.t -> Res A.

Definition ret {A} (a : A) : M A := fun w => Done a w [].

Definition bind {A B} (m : M A) (k : A -> M B) : M B :=
  fun w =>
    match m w with
    | Done a w1 o1 =>
        match k a w1 with
        | Done b w2 o2 => Done b w2 (o1 ++ o2)
        | Thrown e w2 o2 => Thrown e w2 (o1 ++ o2)
        end
    | Thrown e w1 o1 => Thrown e w1 o1
    end.

Declare Scope js_scope.
Delimit Scope js_scope with js.
Notation "x <- m ;; k" := (bind m (fun x => k))
  (at level 61, m at next level, right associativity) : js_scope.
Notation "m ;; k" := (bind m (fun _ => k))
  (at level 61, right associativity) : js_scope.
Local Open Scope js_scope.

Definition gets {A} (f : W.t -> A) : M A := fun w => Done (f w) w [].
Definition modify (f : W.t -> W.t) : M unit := fun w => Done tt (f w) [].
Definition emit (e : Event) : M unit := fun w => Done tt w [e].
Definition throw {A} (e : string) : M A := fun w => Thrown e w [].

Definition when (b : bool) (m : M unit) : M unit := if b then m else ret tt.

(** [try { body } catch (err) { handler }]. *)
Definition try_catch {A} (body : M A) (handler : M A) : M A :=
  fun w =>
    match body w with
    | Done a w1 o1 => Done a w1 o1
    | Thrown _ w1 o1 =>
        match handler w1 with
        | Done a w2 o2 => Done a w2 (o1 ++ o2)
        | Thrown e w2 o2 => Thrown e w2 (o1 ++ o2)
        end
    end.

(** Reading the global [canvasElement]: a ReferenceError while no [init]
    has assigned it. *)
Definition read_canvasElement : M Canvas.t :=
  fun w =>
    match W.canvasElement w with
    | Some c => Done c w []
    | None => Thrown "ReferenceError" w []
    end.

(** Dereferencing [smoother]: a TypeError while it is undefined. *)
Definition read_smoother : M Smoother.t :=
  fun w =>
    match W.smoother w with
    | Some s => Done s w []
    | None => Thrown "TypeError" w []
    end.

(** [window.setTimeout(cb, delay)]. *)
Definition setTimeout (cb : Callback) (delay : JS.number) : M nat :=
  fun w =>
    let id := W.next_timer w in
    Done id
      (W.set_next_timer (S id)
         (W.set_timers (W.timers w ++ [Timer.mk id cb delay]) w))
      [].

(** [window.clearTimeout(h)]; an undefined or stale handle does nothing. *)
Definition clearTimeout (h : option nat) : M unit :=
  match h with
  | None => ret tt
  | Some id =>
      modify (fun w =>
        W.set_timers
          (filter (fun t => negb (Nat.eqb (Timer.id t) id)) (W.timers w)) w)
  end.

(** ** What the environment answers during one call

    [Tick.t] gathers what a run of [track] reads from outside the
    closure: the tracking object, the two clock readings of lines 110 and
    112, the value [smoother.smooth] returns and the value
    [headposition.getFOV()] returns after a construction. *)
Module Tick.
Record t := mk {
  faceObj : FaceObj.t;
  now_start : Z;
  now_check : Z;
  smoothed : FaceObj.t;
  estimator_fov : JS.number
}.
End Tick.

(** What a run of [starter] reads: the result of
    [headtrackr.getWhitebalance(canvasElement)] ([None] when the call
    throws) and the answers for the [track()] it may go on to call. *)
Module Probe.
Record t := mk { whitebalance : option JS.number; tick : Tick.t }.
End Probe.

(** ** The methods *)

(** Lines 68-72. *)
Definition headtrackerStatus (message : string) : M unit :=
  emit (Dispatch message) ;;
  modify (W.set_status message).

(** Lines 74-89. *)
Definition init (p : Params.t) (canvas : Canvas.t) : M unit :=
  headtrackerStatus "getUserMedia" ;;
  modify (W.set_canvasElement (Some canvas)) ;;
  when (Params.ui p) (modify (W.set_ui true)) ;;
  modify (W.set_smoother
            (Some (Smoother.new 0.35%float
                     (Params.detectionInterval p + 15)%float))) ;;
  modify (W.set_this_initialized true).

(** Lines 241-249. *)
Definition stop : M bool :=
  d <- gets W.detector ;;
  clearTimeout d ;;
  modify (W.set_run false) ;;
  headtrackerStatus "stopped" ;;
  modify (W.set_facetracker None) ;;
  modify (W.set_faceFound false) ;;
  ret true.

(** Lines 251-253. *)
Definition getFOV : M JS.number := gets W.fov.

(** [facetracker = new headtrackr.facetrackr.Tracker(..);
    facetracker.init(canvasElement)] (lines 94-95 and 149-150). *)
Definition facetracker_new (wb : option bool) (p : Params.t) : M unit :=
  let f := FaceTracker.new wb (Params.debug p) (Params.calcAngles p) in
  emit (FaceTrackerNew f) ;;
  modify (W.set_facetracker (Some f)) ;;
  c <- read_canvasElement ;;
  modify (W.set_facetracker (Some (FaceTracker.init c f))).

(** [facetracker.track()], line 99. *)
Definition facetracker_track : M unit :=
  f <- gets W.facetracker ;;
  match f with
  | None => throw "TypeError"
  | Some f =>
      emit FaceTrackerTrack ;;
      modify (W.set_facetracker (Some (FaceTracker.track f)))
  end.

(** Lines 107-124: a Viola-Jones detection. *)
Definition track_VJ (p : Params.t) (i : Tick.t) (faceObj : FaceObj.t) : M unit :=
  t0 <- gets W.detectionTimer ;;
  when (match t0 with None => true | Some _ => false end)
       (modify (W.set_detectionTimer (Some (Tick.now_start i)))) ;;
  t0 <- gets W.detectionTimer ;;
  when (match t0 with
        | Some t0 => (5000 <? Tick.now_check i - t0)%Z
        | None => false
        end)
       (headtrackerStatus "hints") ;;
  when (Params.debug p) (emit (DebugDetected faceObj)).

(** Lines 145-156: the face is lost. *)
Definition track_lost (p : Params.t) : M unit :=
  if Params.retryDetection p then
    headtrackerStatus "redetecting" ;;
    facetracker_new (Some false) p ;;
    modify (W.set_faceFound false) ;;
    modify (W.set_headposition None)
  else
    headtrackerStatus "lost" ;;
    _ <- stop ;;
    ret tt.

(** Lines 158-161. *)
Definition announce_found : M unit :=
  found <- gets W.faceFound ;;
  when (negb found)
       (headtrackerStatus "found" ;; modify (W.set_faceFound true)).

(** Lines 163-169: the smoothed tracking object. *)
Definition smooth_step (p : Params.t) (i : Tick.t) (faceObj : FaceObj.t)
  : M FaceObj.t :=
  if Params.smoothing p then
    s <- read_smoother ;;
    when (negb (Smoother.initialized s))
         (emit (SmootherInit faceObj) ;;
          modify (W.set_smoother (Some (Smoother.init s)))) ;;
    emit (SmootherSmooth faceObj) ;;
    ret (Tick.smoothed i)
  else ret faceObj.

(** Line 177. *)
Definition headdiag_of (faceObj : FaceObj.t) : JS.number :=
  JS.Math_sqrt (FaceObj.width faceObj * FaceObj.width faceObj
                + FaceObj.height faceObj * FaceObj.height faceObj)%float.

(** Lines 174 and 179-187 on the array alone: the new [headDiagonal] and
    the value of [stable]. *)
Definition headDiagonal_push (headdiag : JS.number) (hd : list JS.number)
  : list JS.number * bool :=
  if Nat.ltb (List.length hd) 6 then (hd ++ [headdiag], false)
  else
    let hd' := tl hd ++ [headdiag] in
    (hd', JS.lt (JS.Math_max hd' - JS.Math_min hd')%float 5%float).

(** Lines 190-201: construct the estimator and feed it the sample. *)
Definition bootstrap (p : Params.t) (i : Tick.t) (faceObj : FaceObj.t) : M unit :=
  first <- gets W.firstRun ;;
  c <- read_canvasElement ;;
  (if first then
     let h := HeadPosition.mk faceObj (Canvas.width c) (Canvas.height c)
                (Params.fov p) (Params.cameraOffset p) in
     emit (HeadPositionNew h) ;;
     modify (W.set_headposition (Some h)) ;;
     emit (HeadPositionGetFOV (Tick.estimator_fov i)) ;;
     modify (W.set_fov (Tick.estimator_fov i)) ;;
     modify (W.set_firstRun false)
   else
     v <- gets W.fov ;;
     let h := HeadPosition.mk faceObj (Canvas.width c) (Canvas.height c)
                (Some v) (Params.cameraOffset p) in
     emit (HeadPositionNew h) ;;
     modify (W.set_headposition (Some h))) ;;
  emit (HeadPositionTrack faceObj).

(** Lines 171-205. *)
Definition track_headposition (p : Params.t) (i : Tick.t) (faceObj : FaceObj.t)
  : M unit :=
  h <- gets W.headposition ;;
  if (match h with None => true | Some _ => false end) && Params.headPosition p
  then
    hd <- gets W.headDiagonal ;;
    let r := headDiagonal_push (headdiag_of faceObj) hd in
    modify (W.set_headDiagonal (fst r)) ;;
    when (snd r) (bootstrap p i faceObj)
  else if Params.headPosition p then emit (HeadPositionTrack faceObj)
  else ret tt.

(** Lines 158-205: the face is tracked. *)
Definition track_lock (p : Params.t) (i : Tick.t) (faceObj : FaceObj.t) : M unit :=
  announce_found ;;
  faceObj <- smooth_step p i faceObj ;;
  track_headposition p i faceObj.

(** Lines 125-207: a camshift result. *)
Definition track_CS (p : Params.t) (i : Tick.t) (faceObj : FaceObj.t) : M unit :=
  modify (W.set_detectionTimer None) ;;
  when (Params.debug p) (emit (DebugTracked faceObj)) ;;
  modify (W.set_status "tracking") ;;
  if JS.eq (FaceObj.width faceObj) 0%float
     || JS.eq (FaceObj.height faceObj) 0%float
  then track_lost p
  else track_lock p i faceObj.

(** Lines 92-208: everything [track] does before it re-arms. *)
Definition track_frame (p : Params.t) (i : Tick.t) : M unit :=
  f <- gets W.facetracker ;;
  when (match f with None => true | Some _ => false end)
       (facetracker_new None p) ;;
  facetracker_track ;;
  let faceObj := Tick.faceObj i in
  when (String.eqb (FaceObj.detection faceObj) "WB")
       (headtrackerStatus "whitebalance") ;;
  first <- gets W.firstRun ;;
  when (first && String.eqb (FaceObj.detection faceObj) "VJ")
       (headtrackerStatus "detecting") ;;
  when (negb (JS.eq (FaceObj.confidence faceObj) 0%float))
       (when (String.eqb (FaceObj.detection faceObj) "VJ") (track_VJ p i faceObj) ;;
        when (String.eqb (FaceObj.detection faceObj) "CS") (track_CS p i faceObj)).

(** Lines 210-212. *)
Definition rearm (p : Params.t) : M unit :=
  r <- gets W.run ;;
  when r
       (id <- setTimeout CbTrack (Params.detectionInterval p) ;;
        modify (W.set_detector (Some id))).

(** Lines 91-213. *)
Definition track (p : Params.t) (i : Tick.t) : M unit :=
  track_frame p i ;;
  rearm p.

(** Lines 215-230. *)
Definition starter (p : Params.t) (i : Probe.t) : M unit :=
  try_catch
    (canvasContent <-
       (_ <- read_canvasElement ;;
        match Probe.whitebalance i with
        | Some v => ret v
        | None => throw "Error"
        end) ;;
     if JS.lt 0%float canvasContent then
       modify (W.set_run true) ;;
       track p (Probe.tick i)
     else
       _ <- setTimeout CbStarter 100%float ;; ret tt)
    (_ <- setTimeout CbStarter 100%float ;; ret tt).

(** Lines 232-239. *)
Definition start (p : Params.t) (i : Probe.t) : M bool :=
  ini <- gets W.this_initialized ;;
  if negb ini then ret false
  else starter p i ;; ret true.

(** ** The event loop

    One [Action] is one turn of the page's event loop as far as the
    Tracker is concerned: a call of one of its methods, or the firing of
    one of its pending timeouts. *)
Inductive Action :=
| CallInit (canvas : Canvas.t)
| CallStart (i : Probe.t)
| CallStop
| Timeout (id : nat) (i : Probe.t).

Definition find_timer (id : nat) (w : W.t) : option Timer.t :=
  find (fun t => Nat.eqb (Timer.id t) id) (W.timers w).

(** A timeout that fires leaves the pending list and runs its callback;
    a handle that is not pending does nothing. *)
Definition fire (p : Params.t) (id : nat) (i : Probe.t) : M unit :=
  t <- gets (find_timer id) ;;
  match t with
  | None => ret tt
  | Some t =>
      clearTimeout (Some id) ;;
      match Timer.callback t with
      | CbTrack => track p (Probe.tick i)
      | CbStarter => starter p i
      end
  end.

Definition perform (p : Params.t) (a : Action) : M unit :=
  match a with
  | CallInit c => init p c
  | CallStart i => _ <- start p i ;; ret tt
  | CallStop => _ <- stop ;; ret tt
  | Timeout id i => fire p id i
  end.

(** A whole session: the world and the events after a list of actions.
    An exception that escapes an action ends that action only. *)
Fixpoint exec (p : Params.t) (l : list Action) (w : W.t) : W.t * list Event :=
  match l with
  | [] => (w, [])
  | a :: l' =>
      let r := perform p a w in
      let r' := exec p l' (world_of r) in
      (fst r', out_of r ++ snd r')
  end.

(** The world after a list of [track] steps and what they emitted. *)
Fixpoint steps (p : Params.t) (l : list Tick.t) (w : W.t) : W.t * list Event :=
  match l with
  | [] => (w, [])
  | i :: l' =>
      let r := track p i w in
      let r' := steps p l' (world_of r) in
      (fst r', out_of r ++ snd r')
  end.

(** ** Reading a tracking object *)

(** [faceObj.detection == "CS"]: the result of the fine (camshift) tracker. *)
Definition is_CS (f : FaceObj.t) : bool := String.eqb (FaceObj.detection f) "CS".

(** [!(faceObj.confidence == 0)]. *)
Definition has_confidence (f : FaceObj.t) : bool :=
  negb (JS.eq (FaceObj.confidence f) 0%float).

(** [faceObj.width == 0 || faceObj.height == 0]. *)
Definition degenerate (f : FaceObj.t) : bool :=
  JS.eq (FaceObj.width f) 0%float || JS.eq (FaceObj.height f) 0%float.

(** A fine-tracking result that signals the loss of the face. *)
Definition lock_lost (f : FaceObj.t) : bool :=
  is_CS f && has_confidence f && degenerate f.

(** A fine-tracking result that carries a face. *)
Definition valid_lock (f : FaceObj.t) : bool :=
  is_CS f && has_confidence f && negb (degenerate f).

(** How many times a status was dispatched. *)
Definition emitted (message : string) (l : list Event) : nat :=
  List.length (filter (String.eqb message) (statuses l)).

(** ** Basic facts *)

(** Unfold the methods down to the primitive computations, callers first. *)
Ltac unfold_js :=
  unfold perform, fire, start, starter, init, track, rearm, track_frame,
    track_CS, track_lock, track_lost, announce_found, track_VJ,
    track_headposition, bootstrap, smooth_step, stop, getFOV,
    facetracker_new, facetracker_track, headtrackerStatus in *.

(** Unfold the primitive computations and the sequencing. *)
Ltac unfold_prims :=
  unfold setTimeout, clearTimeout, read_canvasElement, read_smoother,
    try_catch, bind, gets, modify, emit, throw, when, ret in *.

Lemma statuses_app l1 l2 : statuses (l1 ++ l2) = statuses l1 ++ statuses l2.
Proof.
  induction l1 as [|e l1 IH]; [reflexivity|].
  destruct e; cbn; now rewrite ?IH.
Qed.

Lemma bootstraps_app l1 l2 :
  bootstraps (l1 ++ l2) = bootstraps l1 ++ bootstraps l2.
Proof.
  induction l1 as [|e l1 IH]; [reflexivity|].
  destruct e; cbn; now rewrite ?IH.
Qed.

Lemma calibrations_app l1 l2 :
  calibrations (l1 ++ l2) = calibrations l1 ++ calibrations l2.
Proof.
  induction l1 as [|e l1 IH]; [reflexivity|].
  destruct e; cbn; now rewrite ?IH.
Qed.

Lemma smoother_inits_app l1 l2 :
  smoother_inits (l1 ++ l2) = smoother_inits l1 ++ smoother_inits l2.
Proof.
  induction l1 as [|e l1 IH]; [reflexivity|].
  destruct e; cbn; now rewrite ?IH.
Qed.

Lemma emitted_app m l1 l2 : emitted m (l1 ++ l2) = emitted m l1 + emitted m l2.
Proof. unfold emitted. now rewrite statuses_app, filter_app, length_app. Qed.

Lemma is_CS_detection f : is_CS f = true -> FaceObj.detection f = "CS".
Proof. apply String.eqb_eq. Qed.

Lemma lock_lost_inv f :
  lock_lost f = true ->
  FaceObj.detection f = "CS" /\
  JS.eq (FaceObj.confidence f) 0%float = false /\
  JS.eq (FaceObj.width f) 0%float || JS.eq (FaceObj.height f) 0%float = true.
Proof.
  unfold lock_lost, has_confidence, degenerate. intros H.
  apply andb_prop in H as [H Hd]. apply andb_prop in H as [Hc Hn].
  apply is_CS_detection in Hc. apply negb_true_iff in Hn. auto.
Qed.

Lemma valid_lock_inv f :
  valid_lock f = true ->
  FaceObj.detection f = "CS" /\
  JS.eq (FaceObj.confidence f) 0%float = false /\
  JS.eq (FaceObj.width f) 0%float || JS.eq (FaceObj.height f) 0%float = false.
Proof.
  unfold valid_lock, has_confidence, degenerate. intros H.
  apply andb_prop in H as [H Hd]. apply andb_prop in H as [Hc Hn].
  apply is_CS_detection in Hc. apply negb_true_iff in Hn.
  apply negb_true_iff in Hd. auto.
Qed.

(** What [bind] does to the final world, the events and the value. *)
Lemma bind_world {A B} (m : M A) (k : A -> M B) w :
  world_of (bind m k w) =
  match m w with
  | Done a w1 _ => world_of (k a w1)
  | Thrown _ w1 _ => w1
  end.
Proof. unfold bind. destruct (m w) as [a w1 o1|e w1 o1]; [destruct (k a w1)|]; reflexivity. Qed.

Lemma bind_out {A B} (m : M A) (k : A -> M B) w :
  out_of (bind m k w) =
  match m w with
  | Done a w1 o1 => o1 ++ out_of (k a w1)
  | Thrown _ _ o1 => o1
  end.
Proof. unfold bind. destruct (m w) as [a w1 o1|e w1 o1]; [destruct (k a w1)|]; reflexivity. Qed.

Lemma bind_value {A B} (m : M A) (k : A -> M B) w :
  value_of (bind m k w) =
  match m w with
  | Done a w1 _ => value_of (k a w1)
  | Thrown _ _ _ => None
  end.
Proof. unfold bind. destruct (m w) as [a w1 o1|e w1 o1]; [destruct (k a w1)|]; reflexivity. Qed.

(** ** Relations that every piece of a computation respects

    [R w w' o] relates the world before a computation, the world after it
    and the events in between.  When [R] holds of doing nothing and
    composes, it is enough to check it on the pieces of a computation. *)
Section Logic.

Variable R : W.t -> W.t -> list Event -> Prop.
Hypothesis R_refl : forall w, R w w [].
Hypothesis R_trans :
  forall w1 w2 w3 o1 o2, R w1 w2 o1 -> R w2 w3 o2 -> R w1 w3 (o1 ++ o2).

Definition holds {A} (m : M A) (w : W.t) : Prop :=
  R w (world_of (m w)) (out_of (m w)).

Lemma holds_ret {A} (a : A) w : holds (ret a) w.
Proof. apply R_refl. Qed.

Lemma holds_gets {A} (f : W.t -> A) w : holds (gets f) w.
Proof. apply R_refl. Qed.

Lemma holds_throw {A} e w : holds (@throw A e) w.
Proof. apply R_refl. Qed.

Lemma holds_bind {A B} (m : M A) (k : A -> M B) w :
  holds m w ->
  (forall a w1 o1, m w = Done a w1 o1 -> holds (k a) w1) ->
  holds (bind m k) w.
Proof.
  unfold holds. intros Hm Hk. rewrite bind_world, bind_out.
  destruct (m w) as [a w1 o1|e w1 o1] eqn:E; cbn in *; [|exact Hm].
  eapply R_trans; [exact Hm|]. now apply (Hk a w1 o1).
Qed.

Lemma holds_gets_bind {A B} (f : W.t -> A) (k : A -> M B) w :
  holds (k (f w)) w -> holds (bind (gets f) k) w.
Proof.
  intros H. apply holds_bind; [apply holds_gets|].
  unfold gets. intros a w1 o1 E. now inversion E; subst.
Qed.

Lemma holds_read_canvasElement_bind {B} (k : Canvas.t -> M B) w :
  (forall c, W.canvasElement w = Some c -> holds (k c) w) ->
  holds (bind read_canvasElement k) w.
Proof.
  intros H. apply holds_bind.
  { unfold holds, read_canvasElement. destruct (W.canvasElement w); apply R_refl. }
  unfold read_canvasElement. intros a w1 o1 E.
  destruct (W.canvasElement w) eqn:Ec; inversion E; subst. now apply H.
Qed.

Lemma holds_read_smoother_bind {B} (k : Smoother.t -> M B) w :
  (forall s, W.smoother w = Some s -> holds (k s) w) ->
  holds (bind read_smoother k) w.
Proof.
  intros H. apply holds_bind.
  { unfold holds, read_smoother. destruct (W.smoother w); apply R_refl. }
  unfold read_smoother. intros a w1 o1 E.
  destruct (W.smoother w) eqn:Es; inversion E; subst. now apply H.
Qed.

Lemma holds_when b (m : M unit) w : (b = true -> holds m w) -> holds (when b m) w.
Proof. destruct b; cbn; intros H; [now apply H|apply holds_ret]. Qed.

Lemma holds_try_catch {A} (body handler : M A) w :
  holds body w ->
  (forall e w1 o1, body w = Thrown e w1 o1 -> holds handler w1) ->
  holds (try_catch body handler) w.
Proof.
  unfold holds, try_catch. intros Hb Hh.
  destruct (body w) as [a w1 o1|e w1 o1] eqn:E; cbn in *; [exact Hb|].
  specialize (Hh e w1 o1 eq_refl).
  destruct (handler w1); cbn in *; eapply R_trans; eauto.
Qed.

(** The relation extends from single actions to whole sessions. *)
Lemma holds_exec (p : Params.t) :
  (forall a w, holds (perform p a) w) ->
  forall l w, R w (fst (exec p l w)) (snd (exec p l w)).
Proof.
  intros H l. induction l as [|a l IH]; intros w; cbn; [apply R_refl|].
  eapply R_trans; [apply H|apply IH].
Qed.

Lemma holds_steps (p : Params.t) :
  (forall i w, holds (track p i) w) ->
  forall l w, R w (fst (steps p l w)) (snd (steps p l w)).
Proof.
  intros H l. induction l as [|a l IH]; intros w; cbn; [apply R_refl|].
  eapply R_trans; [apply H|apply IH].
Qed.

End Logic.

(** One step of the walk through a computation: split a sequence, enter a
    conditional, read a variable, or open a method.  [Hr] and [Ht] are the
    reflexivity and the transitivity of the relation at hand. *)
Ltac open_method m :=
  lazymatch m with
  | perform _ _ => unfold perform
  | fire _ _ _ => unfold fire
  | start _ _ => unfold start
  | starter _ _ => unfold starter
  | init _ _ => unfold init
  | stop => unfold stop
  | track _ _ => unfold track
  | rearm _ => unfold rearm
  | track_frame _ _ => unfold track_frame
  | track_CS _ _ _ => unfold track_CS
  | track_lock _ _ _ => unfold track_lock
  | track_lost _ => unfold track_lost
  | announce_found => unfold announce_found
  | track_VJ _ _ _ => unfold track_VJ
  | track_headposition _ _ _ => unfold track_headposition
  | bootstrap _ _ _ => unfold bootstrap
  | smooth_step _ _ _ => unfold smooth_step
  | facetracker_new _ _ => unfold facetracker_new
  | facetracker_track => unfold facetracker_track
  | headtrackerStatus _ => unfold headtrackerStatus
  end.

Ltac walk_step Hr Ht :=
  lazymatch goal with
  | |- holds _ (ret _) _ => apply (holds_ret _ Hr)
  | |- holds _ (gets _) _ => apply (holds_gets _ Hr)
  | |- holds _ (throw _) _ => apply (holds_throw _ Hr)
  | |- holds _ (bind (gets _) _) _ => apply (holds_gets_bind _ Hr Ht)
  | |- holds _ (bind read_canvasElement _) _ =>
      apply (holds_read_canvasElement_bind _ Hr Ht); intros ? ?
  | |- holds _ (bind read_smoother _) _ =>
      apply (holds_read_smoother_bind _ Hr Ht); intros ? ?
  | |- holds _ (bind _ _) _ => apply (holds_bind _ Ht); [ | intros ? ? ? _ ]
  | |- holds _ (when _ _) _ => apply (holds_when _ Hr); intros ?
  | |- holds _ (try_catch _ _) _ =>
      apply (holds_try_catch _ Ht); [ | intros ? ? ? _ ]
  | |- holds _ (if ?b then _ else _) _ => destruct b eqn:?
  | |- holds _ (match ?x with _ => _ end) _ => destruct x eqn:?
  | |- holds _ (clearTimeout ?h) _ => unfold clearTimeout; destruct h eqn:?
  | |- holds _ ?m _ => open_method m; cbv zeta
  end.

(** The walk; [blocks] is tried first and settles the methods that the
    relation has to take as a whole. *)
Ltac walk_with blocks Hr Ht := cbv zeta; repeat first [ blocks | walk_step Hr Ht ].

Ltac walk Hr Ht := walk_with fail Hr Ht.

(** What is left after a walk: a primitive computation run on its own. *)
Ltac finish_prim :=
  unfold holds, setTimeout, clearTimeout, modify, emit, ret; cbn.

(** ** C1: the loss policy *)

(** C1. A step on a fine-tracking result with nonzero confidence and a
    zero width or height, in a session whose canvas is bound, completes
    and: with [retryDetection] it dispatches "redetecting" and nothing
    else, leaves [run] as it was (re-arming the poll when it was set),
    installs a face tracker built at this step with [whitebalancing :
    false] on which [track()] was never called, and clears [faceFound] and
    [headposition]; without [retryDetection] it dispatches "lost" then
    "stopped", clears [run], discards the face tracker, clears [faceFound]
    and arms no timeout. *)
Theorem C1_loss_policy (p : Params.t) (i : Tick.t) (w : W.t) (c : Canvas.t) :
  W.canvasElement w = Some c ->
  lock_lost (Tick.faceObj i) = true ->
  let r := track p i w in
  value_of r = Some tt /\
  if Params.retryDetection p then
    statuses (out_of r) = ["redetecting"] /\
    W.run (world_of r) = W.run w /\
    (W.run w = true ->
     W.detector (world_of r) = Some (W.next_timer w) /\
     W.timers (world_of r) =
       W.timers w ++ [Timer.mk (W.next_timer w) CbTrack (Params.detectionInterval p)]) /\
    W.facetracker (world_of r) =
      Some (FaceTracker.mk (Some false) (Params.debug p) (Params.calcAngles p)
              (Some c) 0) /\
    W.faceFound (world_of r) = false /\
    W.headposition (world_of r) = None
  else
    statuses (out_of r) = ["lost"; "stopped"] /\
    W.run (world_of r) = false /\
    W.facetracker (world_of r) = None /\
    W.faceFound (world_of r) = false /\
    W.next_timer (world_of r) = W.next_timer w.
Proof.
  intros Hc Hl r. subst r.
  apply lock_lost_inv in Hl as (Hd & Hconf & Hdeg).
  destruct w as [ce u sm ft hp det dt fv rn ff fr hd st ti tm nt].
  cbn in Hc. subst ce.
  unfold track, track_frame, track_CS. cbv zeta. rewrite Hd, Hconf, Hdeg.
  destruct p as [pu ps pr pd pi po pc ph pf].
  destruct ft as [ft|], fr, pd, pr, rn, det;
    repeat split; try reflexivity; intros; try discriminate.
Qed.

(** Two sessions on which the theorem applies: the world right after
    [init], polling, with retry enabled and with retry disabled. *)
Definition canvas0 : Canvas.t := Canvas.mk 320%float 240%float.

Definition params0 : Params.t := Params.defaults Params.no_arg.

Definition params_noretry : Params.t :=
  Params.defaults
    (Params.mk_arg None None (Some false) None None None None None None).

(** A camshift result of the given size. *)
Definition cs_result (width height : JS.number) : FaceObj.t :=
  FaceObj.mk "CS" 1%float 160%float 120%float width height 0%float.

(** A step whose smoother hands the sample back unchanged and whose
    estimator reports a field of view of 60 degrees. *)
Definition tick_of (f : FaceObj.t) : Tick.t := Tick.mk f 0%Z 0%Z f 60%float.

Definition probe_of (f : FaceObj.t) : Probe.t :=
  Probe.mk (Some 1%float) (tick_of f).

Definition ready0 : W.t := world_of (init params0 canvas0 W.fresh).

Definition polling0 : W.t := W.set_run true ready0.

Lemma C1_loss_policy_witness :
  statuses (out_of (track params0 (tick_of (cs_result 0%float 40%float)) polling0))
    = ["redetecting"]
  /\ statuses (out_of (track params_noretry (tick_of (cs_result 30%float 0%float)) polling0))
    = ["lost"; "stopped"].
Proof.
  split.
  - exact (proj1 (proj2 (C1_loss_policy params0
             (tick_of (cs_result 0%float 40%float)) polling0 canvas0
             eq_refl eq_refl))).
  - exact (proj1 (proj2 (C1_loss_policy params_noretry
             (tick_of (cs_result 30%float 0%float)) polling0 canvas0
             eq_refl eq_refl))).
Defined.

(** ** C3: the window of head diagonals *)

(** The array after the samples [vs] were pushed in order. *)
Definition pushes (vs hd : list JS.number) : list JS.number :=
  fold_left (fun hd v => fst (headDiagonal_push v hd)) vs hd.

(** The last [n] elements of a list, in order. *)
Definition last_n {A} (n : nat) (l : list A) : list A :=
  skipn (List.length l - n) l.

(** [Math.max.apply(null, l) - Math.min.apply(null, l)]. *)
Definition span (l : list JS.number) : JS.number :=
  (JS.Math_max l - JS.Math_min l)%float.

Lemma last_n_short {A} n (l : list A) : List.length l <= n -> last_n n l = l.
Proof.
  intros H. unfold last_n. replace (List.length l - n) with 0 by lia. reflexivity.
Qed.

Lemma length_last_n {A} n (l : list A) :
  List.length (last_n n l) = Nat.min n (List.length l).
Proof. unfold last_n. rewrite length_skipn. lia. Qed.

Lemma last_n_snoc {A} n (l : list A) v :
  last_n n (last_n n l ++ [v]) = last_n n (l ++ [v]).
Proof.
  destruct (Nat.le_gt_cases (List.length l) n) as [H|H].
  - now rewrite (last_n_short n l H).
  - unfold last_n at 1 3. rewrite !length_app, length_last_n. cbn [List.length].
    replace (Nat.min n (List.length l) + 1 - n) with 1 by lia.
    unfold last_n. rewrite !skipn_app, length_skipn, skipn_skipn.
    replace (1 - (List.length l - (List.length l - n)))
      with (List.length l + 1 - n - List.length l) by lia.
    replace (1 + (List.length l - n)) with (List.length l + 1 - n) by lia.
    reflexivity.
Qed.

Lemma headDiagonal_push_fst v hd :
  List.length hd <= 6 -> fst (headDiagonal_push v hd) = last_n 6 (hd ++ [v]).
Proof.
  intros H. unfold headDiagonal_push.
  destruct (Nat.ltb (List.length hd) 6) eqn:E; cbn [fst].
  - apply Nat.ltb_lt in E. symmetry. apply last_n_short.
    rewrite length_app. cbn. lia.
  - apply Nat.ltb_ge in E. unfold last_n. rewrite length_app. cbn [List.length].
    replace (List.length hd + 1 - 6) with 1 by lia.
    destruct hd; cbn in *; [lia|reflexivity].
Qed.

Lemma pushes_last_n vs : forall hd,
  List.length hd <= 6 -> pushes vs hd = last_n 6 (hd ++ vs).
Proof.
  induction vs as [|v vs IH]; intros hd H; cbn.
  - rewrite app_nil_r. symmetry. now apply last_n_short.
  - unfold pushes in IH. rewrite IH.
    + rewrite (headDiagonal_push_fst v hd H).
      replace (hd ++ v :: vs) with ((hd ++ [v]) ++ vs) by now rewrite <- app_assoc.
      generalize (hd ++ [v]). intros l. clear.
      induction vs as [|x vs IH] using rev_ind.
      * rewrite !app_nil_r. rewrite last_n_short; [reflexivity|].
        rewrite length_last_n. lia.
      * rewrite !app_assoc, <- last_n_snoc, IH, last_n_snoc. reflexivity.
    + rewrite (headDiagonal_push_fst v hd H), length_last_n. lia.
Qed.

(** C3 (as the code has it).  Starting from an array of at most six
    samples, the array after a sequence of pushes holds the last six of
    all samples in arrival order; after at least six pushes these are the
    last six pushed.  The push of [v] sets [stable] exactly when the array
    already held six samples before this push and the six it holds
    afterwards span less than 5: the push that fills the array does not
    judge it. *)
Theorem C3_window (hd vs : list JS.number) :
  List.length hd <= 6 ->
  pushes vs hd = last_n 6 (hd ++ vs) /\
  (6 <= List.length vs -> pushes vs hd = last_n 6 vs) /\
  forall v,
    snd (headDiagonal_push v (pushes vs hd)) =
    (Nat.leb 6 (List.length hd + List.length vs))
    && JS.lt (span (last_n 6 (hd ++ vs ++ [v]))) 5%float.
Proof.
  intros H. pose proof (pushes_last_n vs hd H) as E. split; [exact E|]. split.
  - intros Hv. rewrite E. unfold last_n. rewrite length_app, skipn_app.
    replace (List.length hd + List.length vs - 6 - List.length hd)
      with (List.length vs - 6) by lia.
    rewrite skipn_all2 by lia. reflexivity.
  - intros v.
    assert (L : List.length (pushes vs hd) = Nat.min 6 (List.length hd + List.length vs))
      by now rewrite E, length_last_n, length_app.
    assert (F : fst (headDiagonal_push v (pushes vs hd)) = last_n 6 (hd ++ vs ++ [v])).
    { rewrite headDiagonal_push_fst by lia.
      rewrite E, last_n_snoc, <- app_assoc. reflexivity. }
    revert F. unfold headDiagonal_push.
    destruct (Nat.ltb (List.length (pushes vs hd)) 6) eqn:C; cbn [fst snd]; intros F.
    + apply Nat.ltb_lt in C.
      replace (Nat.leb 6 (List.length hd + List.length vs)) with false; [reflexivity|].
      symmetry. apply Nat.leb_gt. lia.
    + apply Nat.ltb_ge in C.
      replace (Nat.leb 6 (List.length hd + List.length vs)) with true.
      * unfold span. now rewrite F.
      * symmetry. apply Nat.leb_le. lia.
Qed.

Lemma C3_window_witness :
  pushes [100; 102; 101; 103; 100; 102; 101]%float [] =
    [102; 101; 103; 100; 102; 101]%float.
Proof.
  refine (eq_trans
            (proj1 (proj2 (C3_window [] [100; 102; 101; 103; 100; 102; 101]%float _)) _)
            eq_refl); cbn; lia.
Defined.

(** The sixth push fills the array with six samples whose span is 0, and
    [stable] stays false. *)
Lemma C3_sixth_push_not_judged :
  let r := headDiagonal_push 100%float
             (pushes [100; 100; 100; 100; 100]%float []) in
  List.length (fst r) = 6 /\
  JS.lt (span (fst r)) 5%float = true /\
  snd r = false.
Proof. repeat split. Qed.

(** ** C5: stopping twice *)

Lemma filter_idem {A} (f : A -> bool) (l : list A) :
  filter f (filter f l) = filter f l.
Proof.
  induction l as [|a l IH]; [reflexivity|]. cbn.
  destruct (f a) eqn:E; cbn; rewrite ?E, IH; reflexivity.
Qed.

(** C5 (as the code has it).  [stop()] returns [true] every time and a
    second call in a row leaves the closure exactly as the first call left
    it; each of the two calls dispatches "stopped". *)
Theorem C5_stop_twice (w : W.t) :
  let r1 := stop w in
  let r2 := stop (world_of r1) in
  value_of r1 = Some true /\
  value_of r2 = Some true /\
  world_of r2 = world_of r1 /\
  statuses (out_of r1) = ["stopped"] /\
  statuses (out_of r2) = ["stopped"].
Proof.
  destruct w as [ce u sm ft hp det dt fv rn ff fr hd st ti tm nt].
  destruct det as [d|]; cbn; repeat split.
  unfold W.set_timers; cbn. now rewrite filter_idem.
Qed.

(** Two calls of [stop()] in a row on a polling session dispatch "stopped"
    twice. *)
Lemma C5_stopped_twice :
  emitted "stopped" (snd (exec params0 [CallStop; CallStop] polling0)) = 2.
Proof. reflexivity. Qed.

(** ** C6: starting *)

Lemma starter_completes p i w :
  exists w' o, starter p i w = Done tt w' o.
Proof.
  unfold starter, try_catch.
  match goal with |- context [match ?b w with _ => _ end] => destruct (b w) as [[] w1 o1|e w1 o1] end.
  - eauto.
  - cbn. eauto.
Qed.

(** C6 (as the code has it).  [start()] returns [false] and changes
    nothing when [this.initialized] is not set.  Whenever it is set,
    [start()] returns [true] and runs the readiness probe [starter],
    whether or not the session is already polling. *)
Theorem C6_start (p : Params.t) (i : Probe.t) (w : W.t) :
  (W.this_initialized w = false -> start p i w = Done false w []) /\
  (W.this_initialized w = true ->
   value_of (start p i w) = Some true /\
   world_of (start p i w) = world_of (starter p i w) /\
   out_of (start p i w) = out_of (starter p i w)).
Proof.
  unfold start, bind, gets. split; intros H; rewrite H; cbn.
  - reflexivity.
  - destruct (starter_completes p i w) as (w' & o & E). rewrite E. cbn.
    now rewrite app_nil_r.
Qed.

(** A session that is polling: [init], then [start()] on a canvas that
    answers the probe, with a face being tracked. *)
Definition running0 : W.t :=
  fst (exec params0
         [CallInit canvas0; CallStart (probe_of (cs_result 30%float 40%float))]
         W.fresh).

Lemma C6_start_witness :
  start params0 (probe_of (cs_result 30%float 40%float)) W.fresh
    = Done false W.fresh []
  /\ value_of (start params0 (probe_of (cs_result 30%float 40%float)) running0)
    = Some true.
Proof.
  split.
  - exact (proj1 (C6_start params0 (probe_of (cs_result 30%float 40%float)) W.fresh)
             eq_refl).
  - exact (proj1 (proj2 (C6_start params0 (probe_of (cs_result 30%float 40%float))
                           running0) eq_refl)).
Defined.

(** [start()] on a session that is already polling returns [true], runs a
    tracking step at once and leaves two [track] timeouts pending where
    there was one. *)
Lemma C6_start_while_running :
  let r := start params0 (probe_of (cs_result 30%float 40%float)) running0 in
  W.run running0 = true /\
  value_of r = Some true /\
  List.length (W.timers running0) = 1 /\
  List.length (W.timers (world_of r)) = 2 /\
  map Timer.callback (W.timers (world_of r)) = [CbTrack; CbTrack] /\
  out_of r =
    [FaceTrackerTrack; SmootherSmooth (cs_result 30%float 40%float)].
Proof. repeat split. Qed.

(** ** C7: results without confidence *)

(** C7 (as the code has it).  A step on a result whose confidence is 0, in
    a session whose canvas is bound, completes and leaves [run],
    [this.initialized], [detectionTimer], [faceFound], [fov], [firstRun],
    [headposition], [smoother], [headDiagonal] and the canvas as they
    were.  It dispatches "whitebalance" when the result comes from the
    whitebalancing stage, "detecting" when it comes from the detector
    while [firstRun] is set, and nothing else. *)
Theorem C7_no_confidence (p : Params.t) (i : Tick.t) (w : W.t) (c : Canvas.t) :
  W.canvasElement w = Some c ->
  JS.eq (FaceObj.confidence (Tick.faceObj i)) 0%float = true ->
  let r := track p i w in
  value_of r = Some tt /\
  W.run (world_of r) = W.run w /\
  W.this_initialized (world_of r) = W.this_initialized w /\
  W.detectionTimer (world_of r) = W.detectionTimer w /\
  W.faceFound (world_of r) = W.faceFound w /\
  W.fov (world_of r) = W.fov w /\
  W.firstRun (world_of r) = W.firstRun w /\
  W.headposition (world_of r) = W.headposition w /\
  W.smoother (world_of r) = W.smoother w /\
  W.headDiagonal (world_of r) = W.headDiagonal w /\
  W.canvasElement (world_of r) = W.canvasElement w /\
  statuses (out_of r) =
    (if String.eqb (FaceObj.detection (Tick.faceObj i)) "WB"
     then ["whitebalance"] else [])
    ++ (if W.firstRun w && String.eqb (FaceObj.detection (Tick.faceObj i)) "VJ"
        then ["detecting"] else []).
Proof.
  intros Hc Hconf r. subst r.
  destruct w as [ce u sm ft hp det dt fv rn ff fr hd st ti tm nt].
  cbn in Hc. subst ce.
  unfold track, track_frame. cbv zeta. rewrite Hconf.
  destruct (String.eqb (FaceObj.detection (Tick.faceObj i)) "WB"),
    (String.eqb (FaceObj.detection (Tick.faceObj i)) "VJ"),
    ft as [ft|], fr, rn;
    repeat split; reflexivity.
Qed.

(** A result of the whitebalancing stage, which carries no confidence. *)
Definition wb_result : FaceObj.t :=
  FaceObj.mk "WB" 0%float 0%float 0%float 0%float 0%float 0%float.

(** A camshift result without confidence. *)
Definition cs_blank : FaceObj.t :=
  FaceObj.mk "CS" 0%float 160%float 120%float 30%float 40%float 0%float.

Lemma C7_no_confidence_witness :
  statuses (out_of (track params0 (tick_of cs_blank) polling0)) = [].
Proof.
  exact (proj2 (proj2 (proj2 (proj2 (proj2 (proj2 (proj2 (proj2 (proj2 (proj2 (proj2
    (C7_no_confidence params0 (tick_of cs_blank) polling0 canvas0
       eq_refl eq_refl)))))))))))).
Defined.

(** A step on a whitebalancing result with confidence 0 dispatches
    "whitebalance" and changes [this.status]. *)
Lemma C7_whitebalance_dispatched :
  let r := track params0 (tick_of wb_result) polling0 in
  JS.eq (FaceObj.confidence wb_result) 0%float = true /\
  statuses (out_of r) = ["whitebalance"] /\
  W.status polling0 = "getUserMedia" /\
  W.status (world_of r) = "whitebalance".
Proof. repeat split. Qed.

(** ** A step on a tracked face *)

(** The variables that neither smoothing nor the head-position block
    touches. *)
Definition control (w : W.t) :=
  (W.canvasElement w, W.ui w, W.facetracker w, W.detector w,
   W.detectionTimer w, W.run w, W.this_initialized w, W.timers w,
   W.next_timer w).

(** The head-position block dispatches nothing, never primes the smoother
    and only writes [headposition], [fov], [firstRun] and
    [headDiagonal]. *)
Definition R_pose (w w' : W.t) (o : list Event) : Prop :=
  statuses o = [] /\ smoother_inits o = [] /\ control w' = control w /\
  W.faceFound w' = W.faceFound w /\ W.status w' = W.status w /\
  W.smoother w' = W.smoother w.

Lemma R_pose_refl w : R_pose w w [].
Proof. unfold R_pose. auto 10. Qed.

Lemma R_pose_trans w1 w2 w3 o1 o2 :
  R_pose w1 w2 o1 -> R_pose w2 w3 o2 -> R_pose w1 w3 (o1 ++ o2).
Proof.
  unfold R_pose. intros (A1 & B1 & C1 & D1 & E1 & F1) (A2 & B2 & C2 & D2 & E2 & F2).
  rewrite statuses_app, smoother_inits_app, A1, A2, B1, B2.
  repeat split; congruence.
Qed.

Lemma track_headposition_pose p i f w : holds R_pose (track_headposition p i f) w.
Proof.
  walk R_pose_refl R_pose_trans.
  all: finish_prim; unfold R_pose, control; cbn; auto 10.
Qed.

Lemma track_lock_spec p i f w :
  let r := track_lock p i f w in
  statuses (out_of r) = (if W.faceFound w then [] else ["found"]) /\
  smoother_inits (out_of r) =
    (if Params.smoothing p then
       match W.smoother w with
       | Some s => if Smoother.initialized s then [] else [f]
       | None => []
       end
     else []) /\
  W.faceFound (world_of r) = true /\
  control (world_of r) = control w.
Proof.
  unfold track_lock, announce_found, smooth_step, headtrackerStatus.
  destruct w as [ce u sm ft hp det dt fv rn ff fr hd st ti tm nt].
  destruct p as [pu ps pr pd pi po pc ph pf].
  destruct ff, ps, sm as [[a iv [|]]|]; unfold_prims; cbn -[track_headposition];
    try (match goal with
         | |- context [track_headposition ?p ?i ?f ?w0] =>
             pose proof (track_headposition_pose p i f w0) as H;
             unfold holds, R_pose, control in H;
             destruct (track_headposition p i f w0) as [[] w1 o1|e w1 o1]
         end;
         cbn in H; destruct H as (A & B & C & D & E & F); cbn;
         rewrite ?statuses_app, ?smoother_inits_app, ?A, ?B; cbn;
         unfold control; cbn; repeat split; congruence);
    repeat split.
Qed.

Lemma track_valid_lock p i w c :
  W.canvasElement w = Some c ->
  valid_lock (Tick.faceObj i) = true ->
  let r := track p i w in
  statuses (out_of r) = (if W.faceFound w then [] else ["found"]) /\
  smoother_inits (out_of r) =
    (if Params.smoothing p then
       match W.smoother w with
       | Some s => if Smoother.initialized s then [] else [Tick.faceObj i]
       | None => []
       end
     else []) /\
  W.faceFound (world_of r) = true /\
  W.canvasElement (world_of r) = Some c /\
  W.run (world_of r) = W.run w /\
  W.this_initialized (world_of r) = W.this_initialized w.
Proof.
  intros Hc Hl r. subst r.
  apply valid_lock_inv in Hl as (Hd & Hconf & Hdeg).
  destruct w as [ce u sm ft hp det dt fv rn ff fr hd st ti tm nt].
  cbn in Hc. subst ce.
  unfold track, track_frame, track_CS. cbv zeta. rewrite Hd, Hconf, Hdeg.
  destruct p as [pu ps pr pd pi po pc ph pf].
  unfold rearm, facetracker_new, facetracker_track, headtrackerStatus.
  destruct ft as [ft|], fr, pd; unfold_prims; cbn -[track_lock];
    match goal with
    | |- context [track_lock ?p ?i ?f ?w0] =>
        pose proof (track_lock_spec p i f w0) as H;
        unfold control in H;
        destruct (track_lock p i f w0) as [[] w1 o1|e w1 o1]
    end;
    cbn in H; destruct H as (A & B & C & D); inversion D; subst; cbn;
    rewrite ?statuses_app, ?smoother_inits_app, ?A, ?B; cbn;
    destruct (W.run w1) eqn:Hr; cbn; rewrite ?app_nil_r; repeat split;
    assumption.
Qed.

(** ** C2: "found" is edge-triggered *)

(** Between the world before and the world after, "found" was dispatched
    no more often than [faceFound] rose: every further "found" is paid for
    by a "redetecting" or a "stopped". *)
Definition R_found (w w' : W.t) (o : list Event) : Prop :=
  emitted "found" o + Nat.b2n (W.faceFound w)
  <= Nat.b2n (W.faceFound w') + emitted "redetecting" o + emitted "stopped" o.

Lemma R_found_refl w : R_found w w [].
Proof. unfold R_found. cbn. lia. Qed.

Lemma R_found_trans w1 w2 w3 o1 o2 :
  R_found w1 w2 o1 -> R_found w2 w3 o2 -> R_found w1 w3 (o1 ++ o2).
Proof. unfold R_found. rewrite !emitted_app. lia. Qed.

Lemma announce_found_found w : holds R_found announce_found w.
Proof.
  destruct w as [ce u sm ft hp det dt fv rn ff fr hd st ti tm nt].
  destruct ff; unfold holds, R_found; cbn; lia.
Qed.

Lemma stop_found w : holds R_found stop w.
Proof.
  destruct w as [ce u sm ft hp det dt fv rn ff fr hd st ti tm nt].
  destruct ff, det; unfold holds, R_found; cbn; lia.
Qed.

Lemma track_lost_found p w : holds R_found (track_lost p) w.
Proof.
  destruct w as [ce u sm ft hp det dt fv rn ff fr hd st ti tm nt].
  destruct p as [pu ps pr pd pi po pc ph pf].
  destruct pr, ce, ff, det; unfold holds, R_found; cbn; lia.
Qed.

Ltac found_blocks :=
  lazymatch goal with
  | |- holds _ announce_found _ => apply announce_found_found
  | |- holds _ stop _ => apply stop_found
  | |- holds _ (track_lost _) _ => apply track_lost_found
  end.

Lemma perform_found p a w : holds R_found (perform p a) w.
Proof.
  walk_with ltac:(idtac; found_blocks) R_found_refl R_found_trans.
  all: finish_prim; unfold R_found; cbn; lia.
Qed.

Lemma steps_valid_locks p l : forall w c,
  W.canvasElement w = Some c ->
  Forall (fun i => valid_lock (Tick.faceObj i) = true) l ->
  emitted "found" (snd (steps p l w))
    = (if W.faceFound w then 0 else Nat.min 1 (List.length l)) /\
  (l <> [] -> W.faceFound (fst (steps p l w)) = true).
Proof.
  induction l as [|i l IH]; intros w c Hc Hl; cbn [steps fst snd].
  - split; [now destruct (W.faceFound w)|congruence].
  - inversion Hl as [|? ? Hi Hl']; subst.
    destruct (track_valid_lock p i w c Hc Hi) as (A & _ & C & D & _).
    destruct (IH (world_of (track p i w)) c D Hl') as (E & F).
    rewrite emitted_app, E, C. unfold emitted. rewrite A. split.
    + destruct (W.faceFound w); cbn; lia.
    + intros _. destruct l as [|j l]; [exact C|]. apply F. congruence.
Qed.

(** Steps that are not on a tracked face dispatch no "found". *)
Definition R_no_found (w w' : W.t) (o : list Event) : Prop :=
  emitted "found" o = 0.

Lemma R_no_found_refl w : R_no_found w w [].
Proof. reflexivity. Qed.

Lemma R_no_found_trans w1 w2 w3 o1 o2 :
  R_no_found w1 w2 o1 -> R_no_found w2 w3 o2 -> R_no_found w1 w3 (o1 ++ o2).
Proof. unfold R_no_found. intros A B. now rewrite emitted_app, A, B. Qed.

Lemma track_no_found p i w :
  valid_lock (Tick.faceObj i) = false -> holds R_no_found (track p i) w.
Proof.
  intros Hv.
  walk_with
    ltac:(idtac;
          lazymatch goal with
          | |- holds _ (track_lock _ _ _) _ =>
              exfalso; unfold valid_lock, is_CS, has_confidence, degenerate in Hv;
              match goal with
              | Hc : negb (JS.eq (FaceObj.confidence _) _) = true,
                Hd : String.eqb _ "CS" = true,
                Hg : (_ || _) = false |- _ =>
                  rewrite Hd, Hc, Hg in Hv; discriminate Hv
              end
          end)
    R_no_found_refl R_no_found_trans.
  all: finish_prim; reflexivity.
Qed.

(** [faceFound] only rises with a "found". *)
Definition R_rise (w w' : W.t) (o : list Event) : Prop :=
  Nat.b2n (W.faceFound w') <= Nat.b2n (W.faceFound w) + emitted "found" o.

Lemma R_rise_refl w : R_rise w w [].
Proof. unfold R_rise. cbn. lia. Qed.

Lemma R_rise_trans w1 w2 w3 o1 o2 :
  R_rise w1 w2 o1 -> R_rise w2 w3 o2 -> R_rise w1 w3 (o1 ++ o2).
Proof. unfold R_rise. rewrite emitted_app. lia. Qed.

Lemma announce_found_rise w : holds R_rise announce_found w.
Proof.
  destruct w as [ce u sm ft hp det dt fv rn ff fr hd st ti tm nt].
  destruct ff; unfold holds, R_rise; cbn; lia.
Qed.

Lemma perform_rise p a w : holds R_rise (perform p a) w.
Proof.
  walk_with
    ltac:(idtac;
          lazymatch goal with
          | |- holds _ announce_found _ => apply announce_found_rise
          end)
    R_rise_refl R_rise_trans.
  all: finish_prim; unfold R_rise; cbn; lia.
Qed.

(** A loss with retry clears [faceFound] and keeps the canvas. *)
Lemma track_loss_retry p i w c :
  W.canvasElement w = Some c ->
  lock_lost (Tick.faceObj i) = true ->
  Params.retryDetection p = true ->
  W.faceFound (world_of (track p i w)) = false /\
  W.canvasElement (world_of (track p i w)) = Some c.
Proof.
  intros Hc Hl Hr. apply lock_lost_inv in Hl as (Hd & Hconf & Hdeg).
  destruct w as [ce u sm ft hp det dt fv rn ff fr hd st ti tm nt].
  cbn in Hc. subst ce.
  unfold track, track_frame, track_CS, track_lost. cbv zeta.
  rewrite Hd, Hconf, Hdeg, Hr.
  destruct p as [pu ps pr pd pi po pc ph pf].
  destruct ft as [ft|], fr, pd, rn; split; reflexivity.
Qed.

(** [stop()] clears [faceFound] and keeps the canvas. *)
Lemma stop_clears_faceFound w :
  W.faceFound (world_of (stop w)) = false /\
  W.canvasElement (world_of (stop w)) = W.canvasElement w.
Proof.
  destruct w as [ce u sm ft hp det dt fv rn ff fr hd st ti tm nt].
  now destruct det.
Qed.

(** [start()] on a bound canvas that answers the probe dispatches what
    the first step dispatches, taken with [run] set. *)
Lemma start_first_step p i w c v :
  W.this_initialized w = true ->
  W.canvasElement w = Some c ->
  Probe.whitebalance i = Some v ->
  JS.lt 0%float v = true ->
  out_of (start p i w) = out_of (track p (Probe.tick i) (W.set_run true w)).
Proof.
  intros Hi Hc Hp Hv.
  destruct w as [ce u sm ft hp det dt fv rn ff fr hd st ti tm nt].
  cbn in Hi, Hc. subst ti ce.
  unfold start, starter. unfold_prims. cbn -[track]. rewrite Hp.
  cbn -[track]. rewrite Hv. cbn -[track].
  match goal with
  | |- context [track ?p ?i ?w0] =>
      destruct (track p i w0) as [[] w1 o1|e w1 o1]
  end; cbn; now rewrite ?app_nil_r.
Qed.

(** C2 (as the code has it).  With the canvas bound, a step dispatches
    "found" exactly when it is on a tracked face (a camshift result with
    confidence and a nonzero size) while [faceFound] is clear, and that
    step sets [faceFound]; a step on anything else dispatches no "found".
    So a run of tracked faces dispatches "found" once if it starts with
    [faceFound] clear and never otherwise, however long it is.
    [faceFound] is clear at construction and is cleared by [stop()] and by
    a loss with retry, and the first tracked face after either dispatches
    "found".  [start()] does not clear it: the first step that [start()]
    runs dispatches "found" only if [faceFound] was clear before the call.
    Over any session, "found" is never dispatched again without a
    "redetecting" or a "stopped" in between, and [faceFound] never rises
    without a "found". *)
Theorem C2_found_once (p : Params.t) :
  (forall i w c,
      W.canvasElement w = Some c ->
      valid_lock (Tick.faceObj i) = true ->
      statuses (out_of (track p i w)) = (if W.faceFound w then [] else ["found"]) /\
      W.faceFound (world_of (track p i w)) = true) /\
  (forall i w,
      valid_lock (Tick.faceObj i) = false ->
      emitted "found" (out_of (track p i w)) = 0) /\
  (forall l w c,
      W.canvasElement w = Some c ->
      Forall (fun i => valid_lock (Tick.faceObj i) = true) l ->
      emitted "found" (snd (steps p l w))
        = (if W.faceFound w then 0 else Nat.min 1 (List.length l))) /\
  W.faceFound W.fresh = false /\
  (forall w, W.faceFound (world_of (stop w)) = false) /\
  (forall i w c,
      W.canvasElement w = Some c ->
      lock_lost (Tick.faceObj i) = true ->
      Params.retryDetection p = true ->
      W.faceFound (world_of (track p i w)) = false) /\
  (forall i j w c,
      W.canvasElement w = Some c ->
      lock_lost (Tick.faceObj i) = true ->
      Params.retryDetection p = true ->
      valid_lock (Tick.faceObj j) = true ->
      statuses (out_of (track p j (world_of (track p i w)))) = ["found"]) /\
  (forall j w c,
      W.canvasElement w = Some c ->
      valid_lock (Tick.faceObj j) = true ->
      statuses (out_of (track p j (world_of (stop w)))) = ["found"]) /\
  (forall i w c v,
      W.this_initialized w = true ->
      W.canvasElement w = Some c ->
      Probe.whitebalance i = Some v ->
      JS.lt 0%float v = true ->
      valid_lock (Tick.faceObj (Probe.tick i)) = true ->
      statuses (out_of (start p i w)) = (if W.faceFound w then [] else ["found"])) /\
  (forall l w,
      emitted "found" (snd (exec p l w)) + Nat.b2n (W.faceFound w)
      <= Nat.b2n (W.faceFound (fst (exec p l w)))
         + emitted "redetecting" (snd (exec p l w))
         + emitted "stopped" (snd (exec p l w))) /\
  (forall l w,
      Nat.b2n (W.faceFound (fst (exec p l w)))
      <= Nat.b2n (W.faceFound w) + emitted "found" (snd (exec p l w))).
Proof.
  split; [|split; [|split; [|split; [|split; [|split; [|split; [|split;
    [|split; [|split]]]]]]]]].
  - intros i w c Hc Hl.
    destruct (track_valid_lock p i w c Hc Hl) as (A & _ & C & _). now split.
  - intros i w Hv. exact (track_no_found p i w Hv).
  - intros l w c Hc Hl. now destruct (steps_valid_locks p l w c Hc Hl).
  - reflexivity.
  - intros w. now destruct (stop_clears_faceFound w).
  - intros i w c Hc Hl Hr. now destruct (track_loss_retry p i w c Hc Hl Hr).
  - intros i j w c Hc Hl Hr Hj.
    destruct (track_loss_retry p i w c Hc Hl Hr) as (A & B).
    destruct (track_valid_lock p j _ c B Hj) as (C & _). now rewrite C, A.
  - intros j w c Hc Hj. destruct (stop_clears_faceFound w) as (A & B).
    rewrite Hc in B.
    destruct (track_valid_lock p j _ c B Hj) as (C & _). now rewrite C, A.
  - intros i w c v Hi Hc Hp Hv Hl.
    rewrite (start_first_step p i w c v Hi Hc Hp Hv).
    now destruct (track_valid_lock p (Probe.tick i) (W.set_run true w) c Hc Hl)
      as (A & _).
  - intros l w.
    exact (holds_exec R_found R_found_refl R_found_trans p (perform_found p) l w).
  - intros l w.
    exact (holds_exec R_rise R_rise_refl R_rise_trans p (perform_rise p) l w).
Qed.

(** A session in which a face is tracked. *)
Definition locked0 : W.t :=
  world_of (track params0 (tick_of (cs_result 30%float 40%float)) polling0).

Lemma C2_found_once_witness :
  emitted "found"
    (snd (steps params0
            [tick_of (cs_result 30%float 40%float);
             tick_of (cs_result 31%float 40%float);
             tick_of (cs_result 30%float 41%float)] polling0)) = 1
  /\ statuses
       (out_of (track params0 (tick_of (cs_result 30%float 40%float))
                  (world_of (track params0 (tick_of (cs_result 0%float 40%float))
                               locked0))))
     = ["found"].
Proof.
  split.
  - refine (eq_trans
              (proj1 (proj2 (proj2 (C2_found_once params0)))
                 [tick_of (cs_result 30%float 40%float);
                  tick_of (cs_result 31%float 40%float);
                  tick_of (cs_result 30%float 41%float)] polling0 canvas0 eq_refl _)
              eq_refl).
    repeat constructor.
  - exact (proj1 (proj2 (proj2 (proj2 (proj2 (proj2 (proj2 (C2_found_once params0)))))))
             (tick_of (cs_result 0%float 40%float))
             (tick_of (cs_result 30%float 40%float))
             locked0 canvas0 eq_refl eq_refl eq_refl eq_refl).
Defined.

(** A face is tracked by a polling chain that [stop()] did not clear, so
    [faceFound] is set while [run] is clear; then [start()] runs its first
    step on a tracked face and no "found" is dispatched. *)
Definition locked_while_stopped : W.t :=
  fst (exec params0
         [CallInit canvas0;
          CallStart (probe_of (cs_result 30%float 40%float));
          CallStart (probe_of (cs_result 30%float 40%float));
          CallStop;
          Timeout 0 (probe_of (cs_result 30%float 40%float))]
         W.fresh).

Lemma C2_start_does_not_reset :
  let r := start params0 (probe_of (cs_result 30%float 40%float))
             locked_while_stopped in
  W.run locked_while_stopped = false /\
  W.faceFound locked_while_stopped = true /\
  valid_lock (Tick.faceObj (Probe.tick (probe_of (cs_result 30%float 40%float))))
    = true /\
  value_of r = Some true /\
  W.run (world_of r) = true /\
  statuses (out_of r) = [] /\
  emitted "found" (out_of r) = 0.
Proof. repeat split. Qed.

(** ** C8: the smoother across a loss *)

(** C8 (as the code has it).  A loss with retry (a camshift result with
    confidence and a zero width or height, [retryDetection] set, canvas
    bound) clears [faceFound] and [headposition] and leaves the smoother
    exactly as it was: it stays primed if it was.  On the tracked faces
    that follow, [smoother.init] is called only if the smoother is not
    primed, so a smoother primed before the loss is not initialised
    again. *)
Theorem C8_retry_keeps_smoother (p : Params.t) (i : Tick.t) (w : W.t) (c : Canvas.t) :
  W.canvasElement w = Some c ->
  lock_lost (Tick.faceObj i) = true ->
  Params.retryDetection p = true ->
  let r := track p i w in
  W.faceFound (world_of r) = false /\
  W.headposition (world_of r) = None /\
  W.smoother (world_of r) = W.smoother w /\
  smoother_inits (out_of r) = [] /\
  forall j,
    valid_lock (Tick.faceObj j) = true ->
    smoother_inits (out_of (track p j (world_of r))) =
      (if Params.smoothing p then
         match W.smoother w with
         | Some s => if Smoother.initialized s then [] else [Tick.faceObj j]
         | None => []
         end
       else []).
Proof.
  intros Hc Hl Hr r.
  assert (H : W.faceFound (world_of r) = false /\
              W.headposition (world_of r) = None /\
              W.smoother (world_of r) = W.smoother w /\
              smoother_inits (out_of r) = [] /\
              W.canvasElement (world_of r) = Some c).
  { subst r. apply lock_lost_inv in Hl as (Hd & Hconf & Hdeg).
    destruct w as [ce u sm ft hp det dt fv rn ff fr hd st ti tm nt].
    cbn in Hc. subst ce.
    unfold track, track_frame, track_CS, track_lost. cbv zeta.
    rewrite Hd, Hconf, Hdeg, Hr.
    destruct p as [pu ps pr pd pi po pc ph pf].
    destruct ft as [ft|], fr, pd, rn; repeat split; reflexivity. }
  destruct H as (A & B & C & D & E). repeat split; try assumption.
  intros j Hj. rewrite <- C.
  now destruct (track_valid_lock p j (world_of r) c E Hj) as (_ & F & _).
Qed.

(** A session in which the face was tracked for one step, so that the
    smoother is primed. *)
Definition tracking0 : W.t :=
  fst (steps params0 [tick_of (cs_result 30%float 40%float)] polling0).

Lemma C8_retry_keeps_smoother_witness :
  W.smoother
    (world_of (track params0 (tick_of (cs_result 0%float 40%float)) tracking0))
  = W.smoother tracking0.
Proof.
  exact (proj1 (proj2 (proj2
           (C8_retry_keeps_smoother params0 (tick_of (cs_result 0%float 40%float))
              tracking0 canvas0 eq_refl eq_refl eq_refl)))).
Defined.

(** The smoother is primed before the loss, still primed after the retry,
    and the first tracked face after the retry is smoothed without a call
    of [smoother.init]. *)
Lemma C8_smoother_not_reset :
  let r := track params0 (tick_of (cs_result 0%float 40%float)) tracking0 in
  let r' := track params0 (tick_of (cs_result 30%float 40%float)) (world_of r) in
  option_map Smoother.initialized (W.smoother tracking0) = Some true /\
  statuses (out_of r) = ["redetecting"] /\
  option_map Smoother.initialized (W.smoother (world_of r)) = Some true /\
  out_of r' =
    [FaceTrackerTrack; Dispatch "found";
     SmootherSmooth (cs_result 30%float 40%float)].
Proof. repeat split. Qed.

(** ** C4 and C9: the field of view *)

(** While [firstRun] is set, either nothing was calibrated, or exactly one
    estimator was built from the configured [fov], its answer was stored
    in [fov], and every later estimator was handed that value.  Once
    [firstRun] is clear, [fov] is never written again and every estimator
    is handed it. *)
Definition R_fov (p : Params.t) (w w' : W.t) (o : list Event) : Prop :=
  if W.firstRun w then
    (W.firstRun w' = true /\ W.fov w' = W.fov w /\
     calibrations o = [] /\ bootstraps o = [])
    \/ (W.firstRun w' = false /\ calibrations o = [W.fov w'] /\
        exists h rest,
          bootstraps o = h :: rest /\
          HeadPosition.fov h = Params.fov p /\
          Forall (fun h' => HeadPosition.fov h' = Some (W.fov w')) rest)
  else
    W.firstRun w' = false /\ W.fov w' = W.fov w /\ calibrations o = [] /\
    Forall (fun h => HeadPosition.fov h = Some (W.fov w)) (bootstraps o).

Lemma R_fov_refl p w : R_fov p w w [].
Proof. unfold R_fov. destruct (W.firstRun w) eqn:E; cbn; auto 10. Qed.

Lemma R_fov_trans p w1 w2 w3 o1 o2 :
  R_fov p w1 w2 o1 -> R_fov p w2 w3 o2 -> R_fov p w1 w3 (o1 ++ o2).
Proof.
  unfold R_fov. rewrite calibrations_app, bootstraps_app.
  destruct (W.firstRun w1).
  - intros [(A & B & C & D)|(A & C & h & rest & D & E & F)]; rewrite A.
    + rewrite C, D, B. cbn. intros H; exact H.
    + intros (A' & B' & C' & D'). right. rewrite C, C', D, B', app_nil_r.
      split; [assumption|]. split; [reflexivity|].
      exists h, (rest ++ bootstraps o2). cbn. repeat split; try assumption.
      apply Forall_app. split; assumption.
  - intros (A & B & C & D). rewrite A. intros (A' & B' & C' & D').
    rewrite C, C', <- B, B'. repeat split; try assumption.
    apply Forall_app. split; [now rewrite B|assumption].
Qed.

Lemma bootstrap_fov p i f w : holds (R_fov p) (bootstrap p i f) w.
Proof.
  destruct w as [ce u sm ft hp det dt fv rn ff fr hd st ti tm nt].
  destruct fr, ce; unfold holds, R_fov; cbn; auto 10.
  right. repeat split. eexists _, []. repeat split. constructor.
Qed.

Ltac fov_blocks :=
  lazymatch goal with
  | |- holds _ (bootstrap _ _ _) _ => apply bootstrap_fov
  end.

Lemma perform_fov p a w : holds (R_fov p) (perform p a) w.
Proof.
  walk_with ltac:(idtac; fov_blocks) (R_fov_refl p) (R_fov_trans p).
  all: finish_prim; unfold R_fov; cbn;
    match goal with |- context [W.firstRun ?w] => destruct (W.firstRun w) end;
    auto 10.
Qed.

Lemma exec_fov p l w : R_fov p w (fst (exec p l w)) (snd (exec p l w)).
Proof.
  exact (holds_exec (R_fov p) (R_fov_refl p) (R_fov_trans p) p (perform_fov p) l w).
Qed.

(** C4. Over any session of a Tracker, [headposition.getFOV()] is asked at
    most once, at the first construction of an estimator, which is handed
    the configured [fov] (or none, for the estimator to work it out); the
    answer is what [fov] holds from then on, and every later construction
    of an estimator in the session passes exactly that value. *)
Theorem C4_fov_once (p : Params.t) (l : list Action) :
  let w := fst (exec p l W.fresh) in
  let o := snd (exec p l W.fresh) in
  match bootstraps o with
  | [] => calibrations o = []
  | h :: rest =>
      HeadPosition.fov h = Params.fov p /\
      calibrations o = [W.fov w] /\
      Forall (fun h' => HeadPosition.fov h' = Some (W.fov w)) rest
  end.
Proof.
  cbv zeta. pose proof (exec_fov p l W.fresh) as H. unfold R_fov in H. cbn in H.
  destruct H as [(A & B & C & D)|(A & C & h & rest & D & E & F)].
  - now rewrite D.
  - rewrite D. auto.
Qed.

(** C9. [getFOV()] returns the initial value 0 of [fov] for as long as no
    estimator was constructed in the session, and from the first
    construction on it returns the value the first estimator reported. *)
Theorem C9_getFOV (p : Params.t) (l : list Action) :
  let w := fst (exec p l W.fresh) in
  let o := snd (exec p l W.fresh) in
  match bootstraps o with
  | [] => getFOV w = Done 0%float w []
  | _ :: _ => exists v, calibrations o = [v] /\ getFOV w = Done v w []
  end.
Proof.
  cbv zeta. pose proof (exec_fov p l W.fresh) as H. unfold R_fov in H. cbn in H.
  unfold getFOV, gets.
  destruct H as [(A & B & C & D)|(A & C & h & rest & D & E & F)].
  - now rewrite D, B.
  - rewrite D. eauto.
Qed.

(** ** C10: the window of head diagonals is never emptied *)

Definition R_len (w w' : W.t) (o : list Event) : Prop :=
  List.length (W.headDiagonal w) <= List.length (W.headDiagonal w').

Lemma R_len_refl w : R_len w w [].
Proof. unfold R_len. lia. Qed.

Lemma R_len_trans w1 w2 w3 o1 o2 :
  R_len w1 w2 o1 -> R_len w2 w3 o2 -> R_len w1 w3 (o1 ++ o2).
Proof. unfold R_len. lia. Qed.

Lemma headDiagonal_push_length v hd :
  List.length hd <= List.length (fst (headDiagonal_push v hd)).
Proof.
  unfold headDiagonal_push. destruct (Nat.ltb (List.length hd) 6) eqn:E; cbn.
  - rewrite length_app. cbn. lia.
  - apply Nat.ltb_ge in E. destruct hd; cbn in *; [lia|].
    rewrite length_app. cbn. lia.
Qed.

Lemma perform_len p a w : holds R_len (perform p a) w.
Proof.
  walk R_len_refl R_len_trans.
  all: finish_prim; unfold R_len; cbn; try lia.
  all: apply headDiagonal_push_length.
Qed.

(** The array is left alone. *)
Definition R_same_window (w w' : W.t) (o : list Event) : Prop :=
  W.headDiagonal w' = W.headDiagonal w.

Lemma R_same_window_refl w : R_same_window w w [].
Proof. reflexivity. Qed.

Lemma R_same_window_trans w1 w2 w3 o1 o2 :
  R_same_window w1 w2 o1 -> R_same_window w2 w3 o2 ->
  R_same_window w1 w3 (o1 ++ o2).
Proof. unfold R_same_window. congruence. Qed.

Lemma track_same_window p i w :
  valid_lock (Tick.faceObj i) = false -> holds R_same_window (track p i) w.
Proof.
  intros Hv.
  walk_with
    ltac:(idtac;
          lazymatch goal with
          | |- holds _ (track_lock _ _ _) _ =>
              exfalso; unfold valid_lock, is_CS, has_confidence, degenerate in Hv;
              match goal with
              | Hc : negb (JS.eq (FaceObj.confidence _) _) = true,
                Hd : String.eqb _ "CS" = true,
                Hg : (_ || _) = false |- _ =>
                  rewrite Hd, Hc, Hg in Hv; discriminate Hv
              end
          end)
    R_same_window_refl R_same_window_trans.
  all: finish_prim; reflexivity.
Qed.

(** The session of the scenario: [init], [start()], seven tracked faces of
    the same size (the seventh constructs the estimator), then a loss. *)
Definition lost_after_bootstrap : list Action :=
  [CallInit canvas0;
   CallStart (probe_of (cs_result 30%float 40%float));
   Timeout 0 (probe_of (cs_result 30%float 40%float));
   Timeout 1 (probe_of (cs_result 30%float 40%float));
   Timeout 2 (probe_of (cs_result 30%float 40%float));
   Timeout 3 (probe_of (cs_result 30%float 40%float));
   Timeout 4 (probe_of (cs_result 30%float 40%float));
   Timeout 5 (probe_of (cs_result 30%float 40%float));
   Timeout 6 (probe_of (cs_result 0%float 40%float))].

(** C10. No action of a session ever shortens [headDiagonal]; [stop()]
    leaves it as it is, and so does every step on a result that is not a
    tracked face, a loss with retry among them.  So after a loss the
    estimator can be constructed on the very first tracked face: in the
    session [lost_after_bootstrap] the loss leaves the six samples in
    place with no estimator, and the next tracked face, judged together
    with five samples from before the loss, constructs one. *)
Theorem C10_window_never_cleared (p : Params.t) :
  (forall l w,
      List.length (W.headDiagonal w)
      <= List.length (W.headDiagonal (fst (exec p l w)))) /\
  (forall w, W.headDiagonal (world_of (stop w)) = W.headDiagonal w) /\
  (forall i w,
      valid_lock (Tick.faceObj i) = false ->
      W.headDiagonal (world_of (track p i w)) = W.headDiagonal w) /\
  (let w := fst (exec params0 lost_after_bootstrap W.fresh) in
   let r := track params0 (tick_of (cs_result 30%float 41%float)) w in
   statuses (snd (exec params0 lost_after_bootstrap W.fresh))
     = ["getUserMedia"; "found"; "redetecting"] /\
   W.headposition w = None /\
   W.headDiagonal w = [50; 50; 50; 50; 50; 50]%float /\
   List.length (bootstraps (out_of r)) = 1 /\
   W.headDiagonal (world_of r)
     = [50; 50; 50; 50; 50; headdiag_of (cs_result 30%float 41%float)]%float).
Proof.
  split; [|split; [|split]].
  - intros l w.
    exact (holds_exec R_len R_len_refl R_len_trans p (perform_len p) l w).
  - intros w. destruct w as [ce u sm ft hp det dt fv rn ff fr hd st ti tm nt].
    now destruct det.
  - intros i w Hv. exact (track_same_window p i w Hv).
  - cbv zeta. repeat split.
Qed.

Lemma C10_window_never_cleared_witness :
  W.headDiagonal
    (world_of (track params0 (tick_of (cs_result 0%float 40%float)) tracking0))
  = W.headDiagonal tracking0.
Proof.
  exact (proj1 (proj2 (proj2 (C10_window_never_cleared params0)))
           (tick_of (cs_result 0%float 40%float)) tracking0 eq_refl).
Defined.

(** * Further properties of the controller *)

(** ** The statuses a session can dispatch *)

(** The messages [headtrackerStatus] is ever called with. *)
Definition known_statuses : list string :=
  ["getUserMedia"; "whitebalance"; "detecting"; "hints"; "found";
   "redetecting"; "lost"; "stopped"].

(** [this.status] after some events: the last message dispatched, if any. *)
Definition last_status (o : list Event) (before : string) : string :=
  last (statuses o) before.

Definition R_status (w w' : W.t) (o : list Event) : Prop :=
  Forall (fun m => In m known_statuses) (statuses o) /\
  (W.status w' = "tracking" \/ W.status w' = last_status o (W.status w)).

Lemma last_app_nonempty {A} (l1 l2 : list A) d d' :
  l2 <> [] -> last (l1 ++ l2) d = last l2 d'.
Proof.
  intros H. induction l1 as [|a l1 IH]; cbn.
  - destruct l2 as [|b l2]; [congruence|]. clear H.
    revert b. induction l2 as [|c l2 IH]; intros b; [reflexivity|].
    cbn in *. apply IH.
  - destruct (l1 ++ l2) eqn:E; [|exact IH].
    apply app_eq_nil in E. destruct E. congruence.
Qed.

Lemma last_app_chain {A} (l1 l2 : list A) d :
  last (l1 ++ l2) d = last l2 (last l1 d).
Proof.
  destruct l2 as [|b l2].
  - now rewrite app_nil_r.
  - apply last_app_nonempty. congruence.
Qed.

Lemma R_status_refl w : R_status w w [].
Proof. split; [constructor|right; reflexivity]. Qed.

Lemma R_status_trans w1 w2 w3 o1 o2 :
  R_status w1 w2 o1 -> R_status w2 w3 o2 -> R_status w1 w3 (o1 ++ o2).
Proof.
  unfold R_status, last_status. intros (A1 & B1) (A2 & B2).
  rewrite statuses_app. split; [apply Forall_app; auto|].
  destruct B2 as [B2|B2]; [now left|].
  rewrite last_app_chain.
  destruct B1 as [B1|B1].
  - destruct (statuses o2) as [|m l] eqn:E.
    + left. cbn in B2. congruence.
    + right. rewrite B2. apply last_app_nonempty with (l1 := []). congruence.
  - right. congruence.
Qed.

Lemma headtrackerStatus_status m w :
  In m known_statuses -> holds R_status (headtrackerStatus m) w.
Proof.
  intros H. unfold holds, R_status, last_status. cbn. split; [|now right].
  constructor; [exact H|constructor].
Qed.

Lemma perform_status p a w : holds R_status (perform p a) w.
Proof.
  walk_with
    ltac:(idtac;
          lazymatch goal with
          | |- holds _ (headtrackerStatus _) _ =>
              apply headtrackerStatus_status; unfold known_statuses; cbn; tauto
          end)
    R_status_refl R_status_trans.
  all: finish_prim; unfold R_status, last_status; cbn;
    (split; [constructor|tauto]).
Qed.

(** X1. Over any session, every status dispatched is one of the eight
    messages of [known_statuses]; in particular "tracking", which [track]
    writes into [this.status] at line 141, is never dispatched.  After the
    session [this.status] is either "tracking" or the last message
    dispatched (its previous value when none was). *)
Theorem status_is_last_dispatched_or_tracking (p : Params.t) (l : list Action) (w : W.t) :
  let w' := fst (exec p l w) in
  let o := snd (exec p l w) in
  Forall (fun m => In m known_statuses) (statuses o) /\
  emitted "tracking" o = 0 /\
  (W.status w' = "tracking" \/ W.status w' = last_status o (W.status w)).
Proof.
  cbv zeta.
  destruct (holds_exec R_status R_status_refl R_status_trans p (perform_status p) l w)
    as (A & B).
  repeat split; try assumption.
  unfold emitted. induction A as [|m ms Hm _ IH]; [reflexivity|].
  cbn [filter]. destruct (String.eqb "tracking" m) eqn:E; [|exact IH].
  apply String.eqb_eq in E. subst m. unfold known_statuses in Hm. cbn in Hm.
  repeat (destruct Hm as [Hm|Hm]; [discriminate Hm|]). destruct Hm.
Qed.

(** A camshift step leaves "tracking" in [this.status] although nothing
    was dispatched. *)
Example status_tracking_not_dispatched :
  let r := track params0 (tick_of (cs_result 30%float 40%float)) tracking0 in
  statuses (out_of r) = [] /\ W.status tracking0 = "found" /\
  W.status (world_of r) = "tracking".
Proof. repeat split. Qed.

(** ** The capacity of the window *)

Definition R_cap (w w' : W.t) (o : list Event) : Prop :=
  List.length (W.headDiagonal w) <= 6 -> List.length (W.headDiagonal w') <= 6.

Lemma R_cap_refl w : R_cap w w [].
Proof. unfold R_cap. auto. Qed.

Lemma R_cap_trans w1 w2 w3 o1 o2 :
  R_cap w1 w2 o1 -> R_cap w2 w3 o2 -> R_cap w1 w3 (o1 ++ o2).
Proof. unfold R_cap. auto. Qed.

Lemma headDiagonal_push_cap v hd :
  List.length hd <= 6 -> List.length (fst (headDiagonal_push v hd)) <= 6.
Proof.
  intros H. rewrite headDiagonal_push_fst by exact H.
  rewrite length_last_n. lia.
Qed.

Lemma perform_cap p a w : holds R_cap (perform p a) w.
Proof.
  walk R_cap_refl R_cap_trans.
  all: finish_prim; unfold R_cap; cbn; auto.
  all: apply headDiagonal_push_cap.
Qed.

(** X2. Over any session of a Tracker, [headDiagonal] never holds more
    than six samples. *)
Theorem headDiagonal_at_most_six (p : Params.t) (l : list Action) :
  List.length (W.headDiagonal (fst (exec p l W.fresh))) <= 6.
Proof.
  apply (holds_exec R_cap R_cap_refl R_cap_trans p (perform_cap p) l W.fresh).
  cbn. lia.
Qed.

(** ** "detecting" is announced during the first run only *)

Definition R_detecting (w w' : W.t) (o : list Event) : Prop :=
  W.firstRun w = false ->
  W.firstRun w' = false /\ emitted "detecting" o = 0.

Lemma R_detecting_refl w : R_detecting w w [].
Proof. unfold R_detecting. auto. Qed.

Lemma R_detecting_trans w1 w2 w3 o1 o2 :
  R_detecting w1 w2 o1 -> R_detecting w2 w3 o2 -> R_detecting w1 w3 (o1 ++ o2).
Proof.
  unfold R_detecting. intros H1 H2 H. destruct (H1 H) as (A & B).
  destruct (H2 A) as (C & D). rewrite emitted_app, B, D. auto.
Qed.

Lemma perform_detecting p a w : holds R_detecting (perform p a) w.
Proof.
  walk R_detecting_refl R_detecting_trans.
  all: finish_prim; unfold R_detecting; cbn; intros Hf; auto.
  all: match goal with
       | H : W.firstRun ?w && _ = true |- _ => rewrite Hf in H; discriminate H
       end.
Qed.

(** X3. Once the first estimator was constructed ([firstRun] is clear),
    no action of the session ever dispatches "detecting" again, and
    [firstRun] stays clear: a detection that restarts after a loss is not
    announced. *)
Theorem detecting_only_in_first_run (p : Params.t) (l : list Action) (w : W.t) :
  W.firstRun w = false ->
  W.firstRun (fst (exec p l w)) = false /\
  emitted "detecting" (snd (exec p l w)) = 0.
Proof.
  exact (holds_exec R_detecting R_detecting_refl R_detecting_trans p
           (perform_detecting p) l w).
Qed.

(** A result of the Viola-Jones detector. *)
Definition vj_result : FaceObj.t :=
  FaceObj.mk "VJ" 1%float 100%float 80%float 60%float 60%float 0%float.

(** After the loss of [lost_after_bootstrap] the detector runs again and
    finds a face; nothing announces it. *)
Lemma detecting_only_in_first_run_witness :
  W.firstRun
    (fst (exec params0 [Timeout 7 (probe_of vj_result)]
            (fst (exec params0 lost_after_bootstrap W.fresh)))) = false /\
  emitted "detecting"
    (snd (exec params0 [Timeout 7 (probe_of vj_result)]
            (fst (exec params0 lost_after_bootstrap W.fresh)))) = 0.
Proof.
  exact (detecting_only_in_first_run params0 [Timeout 7 (probe_of vj_result)]
           (fst (exec params0 lost_after_bootstrap W.fresh)) eq_refl).
Defined.

(** ** The smoother stays primed *)

(** [smoother.initialized], false while there is no smoother. *)
Definition primed (w : W.t) : bool :=
  match W.smoother w with
  | Some s => Smoother.initialized s
  | None => false
  end.

Definition R_primed (w w' : W.t) (o : list Event) : Prop :=
  primed w = true -> primed w' = true.

Lemma R_primed_refl w : R_primed w w [].
Proof. unfold R_primed. auto. Qed.

Lemma R_primed_trans w1 w2 w3 o1 o2 :
  R_primed w1 w2 o1 -> R_primed w2 w3 o2 -> R_primed w1 w3 (o1 ++ o2).
Proof. unfold R_primed. auto. Qed.

Definition is_init (a : Action) : bool :=
  match a with CallInit _ => true | _ => false end.

Lemma perform_primed p a w :
  is_init a = false -> holds R_primed (perform p a) w.
Proof.
  intros Ha. destruct a; try discriminate Ha.
  all: walk R_primed_refl R_primed_trans.
  all: finish_prim; unfold R_primed, primed; cbn; auto.
Qed.

(** X4. A primed smoother stays primed through every [start()], [stop()]
    and timeout of a session, whatever the tracker sees; only [init],
    which allocates a new smoother, leaves it unprimed. *)
Theorem smoother_primed_until_init (p : Params.t) (l : list Action) (w : W.t) :
  forallb (fun a => negb (is_init a)) l = true ->
  primed w = true ->
  primed (fst (exec p l w)) = true /\
  forall c, primed (world_of (init p c (fst (exec p l w)))) = false.
Proof.
  intros Hl Hw. split; [|intros c; unfold init; now destruct (Params.ui p)].
  revert w Hw. induction l as [|a l IH]; intros w Hw; [exact Hw|].
  cbn in Hl. apply andb_prop in Hl as [Ha Hl]. apply negb_true_iff in Ha.
  cbn. apply (IH Hl). exact (perform_primed p a w Ha Hw).
Qed.

Lemma smoother_primed_until_init_witness :
  primed (fst (exec params0
                 [Timeout 0 (probe_of (cs_result 0%float 40%float));
                  CallStop;
                  CallStart (probe_of (cs_result 30%float 40%float))]
                 running0)) = true.
Proof.
  exact (proj1 (smoother_primed_until_init params0
                  [Timeout 0 (probe_of (cs_result 0%float 40%float));
                   CallStop;
                   CallStart (probe_of (cs_result 30%float 40%float))]
                  running0 eq_refl eq_refl)).
Defined.

(** ** The "hints" status *)

(** Every variable but [detectionTimer] and [this.status]. *)
Definition but_timer_and_status (w : W.t) :=
  (W.canvasElement w, W.ui w, W.smoother w, W.facetracker w, W.headposition w,
   W.detector w, W.fov w, W.run w, W.faceFound w, W.firstRun w,
   W.headDiagonal w, W.this_initialized w, W.timers w, W.next_timer w).

(** The start of the detection episode a step belongs to: the running
    [detectionTimer], or the first clock reading of the step. *)
Definition episode_start (i : Tick.t) (w : W.t) : Z :=
  match W.detectionTimer w with
  | Some t => t
  | None => Tick.now_start i
  end.

Lemma track_VJ_spec p i f w :
  let r := track_VJ p i f w in
  let hint := (5000 <? Tick.now_check i - episode_start i w)%Z in
  value_of r = Some tt /\
  statuses (out_of r) = (if hint then ["hints"] else []) /\
  W.detectionTimer (world_of r) = Some (episode_start i w) /\
  W.status (world_of r) = (if hint then "hints" else W.status w) /\
  but_timer_and_status (world_of r) = but_timer_and_status w.
Proof.
  destruct w as [ce u sm ft hp det dt fv rn ff fr hd st ti tm nt].
  destruct p as [pu ps pr pd pi po pc ph pf].
  unfold track_VJ, headtrackerStatus, episode_start, but_timer_and_status.
  destruct dt as [t|]; unfold_prims; cbn -[Z.ltb Z.sub];
    match goal with
    | |- context [(5000 <? ?d)%Z] => destruct (5000 <? d)%Z
    end; destruct pd; cbn; repeat split.
Qed.

(** X5. A step on a detector result with confidence, in a session whose
    canvas is bound, completes; it starts the detection clock if it was
    not running and otherwise leaves it alone, and it dispatches "hints"
    exactly when the second clock reading of the step is more than 5000 ms
    after the start of the detection episode (after "detecting", which it
    dispatches while [firstRun] is set).  [faceFound], [headposition],
    [headDiagonal], [fov] and [run] are as before. *)
Theorem hints_after_five_seconds (p : Params.t) (i : Tick.t) (w : W.t) (c : Canvas.t) :
  W.canvasElement w = Some c ->
  FaceObj.detection (Tick.faceObj i) = "VJ" ->
  JS.eq (FaceObj.confidence (Tick.faceObj i)) 0%float = false ->
  let r := track p i w in
  value_of r = Some tt /\
  W.detectionTimer (world_of r) = Some (episode_start i w) /\
  statuses (out_of r) =
    (if W.firstRun w then ["detecting"] else [])
    ++ (if (5000 <? Tick.now_check i - episode_start i w)%Z then ["hints"] else []) /\
  W.faceFound (world_of r) = W.faceFound w /\
  W.headposition (world_of r) = W.headposition w /\
  W.headDiagonal (world_of r) = W.headDiagonal w /\
  W.fov (world_of r) = W.fov w /\
  W.run (world_of r) = W.run w.
Proof.
  intros Hc Hd Hconf r. subst r.
  destruct w as [ce u sm ft hp det dt fv rn ff fr hd st ti tm nt].
  cbn in Hc. subst ce.
  unfold track, track_frame. cbv zeta. rewrite Hd, Hconf.
  destruct p as [pu ps pr pd pi po pc ph pf].
  unfold rearm, facetracker_new, facetracker_track, headtrackerStatus.
  destruct ft as [ft|], fr; unfold_prims; cbn -[track_VJ Z.ltb Z.sub];
    match goal with
    | |- context [track_VJ ?p ?i ?f ?w0] =>
        pose proof (track_VJ_spec p i f w0) as H;
        unfold but_timer_and_status, episode_start in H;
        destruct (track_VJ p i f w0) as [[] w1 o1|e w1 o1]
    end;
    cbn -[Z.ltb Z.sub] in H; destruct H as (A & B & C & D & E);
    try discriminate A; injection E as E1 E2 E3 E4 E5 E6 E7 E8 E9 E10 E11 E12 E13 E14;
    unfold episode_start; cbn -[Z.ltb Z.sub];
    destruct (W.run w1) eqn:Hr; cbn -[Z.ltb Z.sub];
    rewrite ?statuses_app, ?B, ?app_nil_r; repeat split; congruence.
Qed.

(** A detection episode that started at 1000 ms: nothing at 6000 ms,
    "hints" at 6001 ms. *)
Lemma hints_after_five_seconds_witness :
  statuses (out_of (track params0 (Tick.mk vj_result 6000 6000 vj_result 60%float)
                      (W.set_detectionTimer (Some 1000%Z) polling0)))
    = ["detecting"]
  /\ statuses (out_of (track params0 (Tick.mk vj_result 6001 6001 vj_result 60%float)
                         (W.set_detectionTimer (Some 1000%Z) polling0)))
    = ["detecting"; "hints"].
Proof.
  split.
  - exact (proj1 (proj2 (proj2
             (hints_after_five_seconds params0
                (Tick.mk vj_result 6000 6000 vj_result 60%float)
                (W.set_detectionTimer (Some 1000%Z) polling0) canvas0
                eq_refl eq_refl eq_refl)))).
  - exact (proj1 (proj2 (proj2
             (hints_after_five_seconds params0
                (Tick.mk vj_result 6001 6001 vj_result 60%float)
                (W.set_detectionTimer (Some 1000%Z) polling0) canvas0
                eq_refl eq_refl eq_refl)))).
Defined.

(** ** Re-arming the poll *)

(** No timeout is created and none appears. *)
Definition R_no_timeout (w w' : W.t) (o : list Event) : Prop :=
  W.next_timer w' = W.next_timer w /\ incl (W.timers w') (W.timers w).

Lemma R_no_timeout_refl w : R_no_timeout w w [].
Proof. split; [reflexivity|apply incl_refl]. Qed.

Lemma R_no_timeout_trans w1 w2 w3 o1 o2 :
  R_no_timeout w1 w2 o1 -> R_no_timeout w2 w3 o2 -> R_no_timeout w1 w3 (o1 ++ o2).
Proof.
  unfold R_no_timeout. intros (A & B) (C & D). split; [congruence|].
  eapply incl_tran; eassumption.
Qed.

Lemma track_frame_no_timeout p i w : holds R_no_timeout (track_frame p i) w.
Proof.
  walk R_no_timeout_refl R_no_timeout_trans.
  all: finish_prim; unfold R_no_timeout; cbn; split;
    try reflexivity; try apply incl_refl.
  all: apply incl_filter.
Qed.

(** X6. The timeout that [track] arms is gated on [run] as it stands at
    the end of the step.  A step that completes with [run] set arms
    exactly one timeout, for [track] after [detectionInterval], and keeps
    its handle in [detector]; a step that completes with [run] clear, or
    that is cut short by an exception, arms none.  No step brings any
    other timeout into being. *)
Theorem rearm_gated_on_run (p : Params.t) (i : Tick.t) (w : W.t) :
  let r := track p i w in
  let armed := Timer.mk (W.next_timer w) CbTrack (Params.detectionInterval p) in
  match value_of r with
  | Some _ =>
      if W.run (world_of r) then
        W.detector (world_of r) = Some (W.next_timer w) /\
        W.next_timer (world_of r) = S (W.next_timer w) /\
        In armed (W.timers (world_of r)) /\
        incl (W.timers (world_of r)) (W.timers w ++ [armed])
      else
        W.next_timer (world_of r) = W.next_timer w /\
        incl (W.timers (world_of r)) (W.timers w)
  | None =>
      W.next_timer (world_of r) = W.next_timer w /\
      incl (W.timers (world_of r)) (W.timers w)
  end.
Proof.
  cbv zeta. unfold track. rewrite bind_value, bind_world.
  pose proof (track_frame_no_timeout p i w) as H. unfold holds, R_no_timeout in H.
  destruct (track_frame p i w) as [[] w1 o1|e w1 o1]; cbn in H;
    destruct H as (A & B); [|auto].
  unfold rearm. unfold_prims.
  destruct (W.run w1) eqn:Hr; cbn; rewrite ?Hr; [|auto].
  rewrite A. repeat split.
  - apply in_or_app. right. now left.
  - apply incl_app; [|apply incl_appr, incl_refl].
    apply incl_appl. exact B.
Qed.

(** ** The readiness probe *)

(** The world after [window.setTimeout(starter, 100)]. *)
Definition with_retry (w : W.t) : W.t :=
  W.set_next_timer (S (W.next_timer w))
    (W.set_timers (W.timers w ++ [Timer.mk (W.next_timer w) CbStarter 100%float]) w).

(** The probe did not find a usable frame: it threw, or its result is not
    above zero (NaN included). *)
Definition probe_failed (i : Probe.t) : bool :=
  match Probe.whitebalance i with
  | Some v => negb (JS.lt 0%float v)
  | None => true
  end.

(** X7. [starter] never lets an exception out.  While the probe fails (it
    throws, the canvas is not bound, or its result is not above zero) the
    only thing [starter] does is to schedule itself again after 100 ms:
    [run] is not set and nothing is dispatched.  When the probe succeeds on
    a bound canvas, [starter] sets [run] and runs the first step at once;
    if that step throws, [starter] catches the exception and schedules
    itself again after 100 ms. *)
Theorem starter_waits_for_a_frame (p : Params.t) (i : Probe.t) (w : W.t) :
  (probe_failed i = true \/ W.canvasElement w = None ->
   starter p i w = Done tt (with_retry w) []) /\
  (probe_failed i = false -> W.canvasElement w <> None ->
   match track p (Probe.tick i) (W.set_run true w) with
   | Done _ w' o => starter p i w = Done tt w' o
   | Thrown _ w' o => starter p i w = Done tt (with_retry w') o
   end).
Proof.
  unfold probe_failed, starter. split.
  - intros [H|H].
    + destruct (Probe.whitebalance i) as [v|].
      * apply negb_true_iff in H. unfold_prims.
        destruct (W.canvasElement w); cbn; rewrite ?H; reflexivity.
      * unfold_prims. destruct (W.canvasElement w); reflexivity.
    + unfold_prims. rewrite H. reflexivity.
  - intros H Hc. destruct (Probe.whitebalance i) as [v|]; [|discriminate H].
    apply negb_false_iff in H.
    destruct (W.canvasElement w) as [c|] eqn:Ec; [clear Hc|congruence].
    unfold_prims. rewrite Ec. cbn -[track]. rewrite H. cbn -[track].
    destruct (track p (Probe.tick i) (W.set_run true w)) as [[] w1 o1|e w1 o1];
      cbn; rewrite ?app_nil_r; reflexivity.
Qed.

(** A probe that throws, and a probe on a black frame. *)
Definition probe_throws : Probe.t :=
  Probe.mk None (tick_of (cs_result 30%float 40%float)).

Definition probe_black : Probe.t :=
  Probe.mk (Some 0%float) (tick_of (cs_result 30%float 40%float)).

Lemma starter_waits_for_a_frame_witness :
  starter params0 probe_black ready0 = Done tt (with_retry ready0) [] /\
  starter params0 probe_throws ready0 = Done tt (with_retry ready0) [] /\
  match track params0 (Probe.tick (probe_of (cs_result 30%float 40%float)))
          (W.set_run true ready0) with
  | Done _ w' o =>
      starter params0 (probe_of (cs_result 30%float 40%float)) ready0 = Done tt w' o
  | Thrown _ w' o =>
      starter params0 (probe_of (cs_result 30%float 40%float)) ready0
        = Done tt (with_retry w') o
  end.
Proof.
  split; [|split].
  - apply (proj1 (starter_waits_for_a_frame params0 probe_black ready0)).
    left. reflexivity.
  - apply (proj1 (starter_waits_for_a_frame params0 probe_throws ready0)).
    left. reflexivity.
  - apply (proj2 (starter_waits_for_a_frame params0
                    (probe_of (cs_result 30%float 40%float)) ready0)).
    + reflexivity.
    + discriminate.
Defined.

(** ** What [stop()] cancels *)

(** Handles are handed out in increasing order, and [detector] only ever
    holds the handle of a timeout for [track]. *)
Definition handles_ok (w : W.t) : Prop :=
  (forall t, In t (W.timers w) -> Timer.id t < W.next_timer w) /\
  (forall d, W.detector w = Some d ->
     d < W.next_timer w /\
     forall t, In t (W.timers w) -> Timer.id t = d -> Timer.callback t = CbTrack).

Definition R_handles (w w' : W.t) (o : list Event) : Prop :=
  handles_ok w -> handles_ok w'.

Lemma R_handles_refl w : R_handles w w [].
Proof. unfold R_handles. auto. Qed.

Lemma R_handles_trans w1 w2 w3 o1 o2 :
  R_handles w1 w2 o1 -> R_handles w2 w3 o2 -> R_handles w1 w3 (o1 ++ o2).
Proof. unfold R_handles. auto. Qed.

Lemma handles_ok_filter f w :
  handles_ok w -> handles_ok (W.set_timers (filter f (W.timers w)) w).
Proof.
  intros (A & B). split; cbn.
  - intros t Ht. apply filter_In in Ht as [Ht _]. now apply A.
  - intros d Hd. destruct (B d Hd) as (C & D). split; [exact C|].
    intros t Ht. apply filter_In in Ht as [Ht _]. now apply D.
Qed.

Lemma handles_ok_setTimeout_starter v w :
  handles_ok w -> handles_ok (world_of (setTimeout CbStarter v w)).
Proof.
  intros (A & B). split; cbn.
  - intros t Ht. apply in_app_or in Ht as [Ht|[Ht|[]]].
    + apply A in Ht. lia.
    + subst t. cbn. lia.
  - intros d Hd. destruct (B d Hd) as (C & D). split; [lia|].
    intros t Ht E. apply in_app_or in Ht as [Ht|[Ht|[]]].
    + now apply D.
    + subst t. cbn in E. lia.
Qed.

Lemma rearm_handles p w : holds R_handles (rearm p) w.
Proof.
  unfold holds, R_handles, rearm. unfold_prims.
  destruct (W.run w); cbn; [|auto].
  intros (A & B). split; cbn.
  - intros t Ht. apply in_app_or in Ht as [Ht|[Ht|[]]].
    + apply A in Ht. lia.
    + subst t. cbn. lia.
  - intros d Hd. injection Hd as Hd. subst d. split; [lia|].
    intros t Ht E. apply in_app_or in Ht as [Ht|[Ht|[]]].
    + apply A in Ht. lia.
    + now subst t.
Qed.

Lemma perform_handles p a w : holds R_handles (perform p a) w.
Proof.
  walk_with
    ltac:(idtac;
          lazymatch goal with
          | |- holds _ (rearm _) _ => apply rearm_handles
          | |- holds _ (setTimeout CbStarter _) _ =>
              exact (handles_ok_setTimeout_starter _ _)
          end)
    R_handles_refl R_handles_trans.
  all: finish_prim; unfold R_handles; cbn; auto.
  all: apply handles_ok_filter.
Qed.

(** X8. In any session of a Tracker, [stop()] leaves every pending
    timeout for [starter] pending: it only clears the handle kept in
    [detector], which is always that of a timeout for [track].  A
    readiness probe that is waiting to retry is therefore not cancelled
    by [stop()]. *)
Theorem stop_keeps_pending_probe (p : Params.t) (l : list Action) (t : Timer.t) :
  let w := fst (exec p l W.fresh) in
  In t (W.timers w) ->
  Timer.callback t = CbStarter ->
  In t (W.timers (world_of (stop w))).
Proof.
  cbv zeta. intros Ht Hc.
  assert (H : handles_ok (fst (exec p l W.fresh))).
  { apply (holds_exec R_handles R_handles_refl R_handles_trans p
             (perform_handles p) l W.fresh).
    split; cbn; [intros ? []|discriminate]. }
  destruct H as (_ & B). revert Ht B.
  generalize (fst (exec p l W.fresh)). intros w Ht B.
  unfold stop. unfold_prims.
  destruct (W.detector w) as [d|] eqn:Ed; cbn; [|exact Ht].
  apply filter_In. split; [exact Ht|].
  apply negb_true_iff. apply Nat.eqb_neq. intros E.
  destruct (B d eq_refl) as (_ & D). specialize (D t Ht E). congruence.
Qed.

(** [start()] on a black frame, then [stop()]: the retry of the probe is
    still pending, and when it fires on a usable frame the tracker runs. *)
Definition stopped_while_waiting : W.t :=
  fst (exec params0 [CallInit canvas0; CallStart probe_black; CallStop] W.fresh).

Lemma stop_keeps_pending_probe_witness :
  In (Timer.mk 0 CbStarter 100%float)
     (W.timers
        (world_of (stop (fst (exec params0 [CallInit canvas0; CallStart probe_black]
                                W.fresh))))).
Proof.
  apply (stop_keeps_pending_probe params0 [CallInit canvas0; CallStart probe_black]
           (Timer.mk 0 CbStarter 100%float)).
  - left. reflexivity.
  - reflexivity.
Defined.

Example tracker_runs_after_stop :
  let w := fst (exec params0 [Timeout 0 (probe_of (cs_result 30%float 40%float))]
                  stopped_while_waiting) in
  W.status stopped_while_waiting = "stopped" /\
  W.run stopped_while_waiting = false /\
  W.run w = true /\
  map Timer.callback (W.timers w) = [CbTrack].
Proof. repeat split. Qed.

(** ** No exception once [init] has run *)

(** [init] has bound the canvas and allocated the smoother. *)
Definition bound (w : W.t) : Prop :=
  W.canvasElement w <> None /\ W.smoother w <> None.

(** From a bound world the computation completes, in a bound world. *)
Definition safe {A} (m : M A) (w : W.t) : Prop :=
  bound w -> exists a w' o, m w = Done a w' o /\ bound w'.

Lemma safe_ret {A} (a : A) w : safe (ret a) w.
Proof. intros H. now exists a, w, []. Qed.

Lemma safe_gets {A} (f : W.t -> A) w : safe (gets f) w.
Proof. intros H. now exists (f w), w, []. Qed.

Lemma safe_emit e w : safe (emit e) w.
Proof. intros H. now exists tt, w, [e]. Qed.

Lemma safe_modify f w : (bound w -> bound (f w)) -> safe (modify f) w.
Proof. intros Hf H. exists tt, (f w), []. auto. Qed.

Lemma safe_bind {A B} (m : M A) (k : A -> M B) w :
  safe m w -> (forall a w1 o1, m w = Done a w1 o1 -> safe (k a) w1) ->
  safe (bind m k) w.
Proof.
  intros Hm Hk H. destruct (Hm H) as (a & w1 & o1 & E & H1).
  destruct (Hk a w1 o1 E H1) as (b & w2 & o2 & E2 & H2).
  exists b, w2, (o1 ++ o2). unfold bind. now rewrite E, E2.
Qed.

Lemma safe_gets_bind {A B} (f : W.t -> A) (k : A -> M B) w :
  safe (k (f w)) w -> safe (bind (gets f) k) w.
Proof.
  intros H. apply safe_bind; [apply safe_gets|].
  unfold gets. intros a w1 o1 E. now inversion E; subst.
Qed.

Lemma safe_read_canvasElement_bind {B} (k : Canvas.t -> M B) w :
  (forall c, safe (k c) w) -> safe (bind read_canvasElement k) w.
Proof.
  intros Hk H. unfold bind, read_canvasElement.
  destruct H as (Hc & Hs). destruct (W.canvasElement w) as [c|] eqn:E; [|congruence].
  assert (Hb : bound w) by (split; congruence).
  destruct (Hk c Hb) as (b & w2 & o2 & E2 & H2).
  exists b, w2, o2. now rewrite E2.
Qed.

Lemma safe_read_smoother_bind {B} (k : Smoother.t -> M B) w :
  (forall s, safe (k s) w) -> safe (bind read_smoother k) w.
Proof.
  intros Hk H. unfold bind, read_smoother.
  destruct H as (Hc & Hs). destruct (W.smoother w) as [s|] eqn:E; [|congruence].
  assert (Hb : bound w) by (split; congruence).
  destruct (Hk s Hb) as (b & w2 & o2 & E2 & H2).
  exists b, w2, o2. now rewrite E2.
Qed.

Lemma safe_when b (m : M unit) w : safe m w -> safe (when b m) w.
Proof. destruct b; cbn; [auto|intros _; apply safe_ret]. Qed.

Ltac safe_step :=
  lazymatch goal with
  | |- safe (ret _) _ => apply safe_ret
  | |- safe (gets _) _ => apply safe_gets
  | |- safe (emit _) _ => apply safe_emit
  | |- safe (modify _) _ =>
      apply safe_modify; unfold bound; cbn; intuition congruence
  | |- safe (bind (gets _) _) _ => apply safe_gets_bind
  | |- safe (bind read_canvasElement _) _ =>
      apply safe_read_canvasElement_bind; intros ?
  | |- safe (bind read_smoother _) _ =>
      apply safe_read_smoother_bind; intros ?
  | |- safe (bind _ _) _ => apply safe_bind; [ | intros ? ? ? _ ]
  | |- safe (when _ _) _ => apply safe_when
  | |- safe (if ?b then _ else _) _ => destruct b eqn:?
  | |- safe (match ?x with _ => _ end) _ => destruct x eqn:?
  | |- safe (clearTimeout ?h) _ => unfold clearTimeout; destruct h eqn:?
  | |- safe ?m _ => open_method m; cbv zeta
  end.

(** Lines 102-208: what [track] does with the tracking object. *)
Definition track_result (p : Params.t) (i : Tick.t) : M unit :=
  let faceObj := Tick.faceObj i in
  when (String.eqb (FaceObj.detection faceObj) "WB")
       (headtrackerStatus "whitebalance") ;;
  first <- gets W.firstRun ;;
  when (first && String.eqb (FaceObj.detection faceObj) "VJ")
       (headtrackerStatus "detecting") ;;
  when (negb (JS.eq (FaceObj.confidence faceObj) 0%float))
       (when (String.eqb (FaceObj.detection faceObj) "VJ") (track_VJ p i faceObj) ;;
        when (String.eqb (FaceObj.detection faceObj) "CS") (track_CS p i faceObj)).

Lemma track_frame_split p i :
  track_frame p i =
  (f <- gets W.facetracker ;;
   when (match f with None => true | Some _ => false end)
        (facetracker_new None p) ;;
   facetracker_track ;;
   track_result p i).
Proof. reflexivity. Qed.

Lemma safe_setTimeout cb v w : safe (setTimeout cb v) w.
Proof. intros H. eexists _, _, _. split; [reflexivity|exact H]. Qed.

Lemma safe_track_result p i w : safe (track_result p i) w.
Proof.
  unfold track_result. cbv zeta. repeat safe_step.
Qed.

Lemma bind_assoc {A B C} (m : M A) (n : A -> M B) (k : B -> M C) w :
  bind m (fun a => bind (n a) k) w = bind (bind m n) k w.
Proof.
  unfold bind. destruct (m w) as [a w1 o1|e w1 o1]; [|reflexivity].
  destruct (n a w1) as [b w2 o2|e w2 o2]; [|reflexivity].
  destruct (k b w2); now rewrite app_assoc.
Qed.

Lemma safe_facetracker_new_track wb p w :
  safe (facetracker_new wb p ;; facetracker_track) w.
Proof.
  intros (Hc & Hs). unfold facetracker_new, facetracker_track. unfold_prims.
  destruct (W.canvasElement w) as [c|] eqn:Ec; [|congruence]. cbn. rewrite Ec. cbn.
  eexists _, _, _. split; [reflexivity|]. unfold bound. cbn. rewrite Ec.
  split; congruence.
Qed.

Lemma safe_track_frame p i w : safe (track_frame p i) w.
Proof.
  rewrite track_frame_split. apply safe_gets_bind.
  destruct (W.facetracker w) as [f|] eqn:Ef; cbn [when].
  - apply safe_bind; [apply safe_ret|]. intros a w1 o1 E. inversion E; subst.
    apply safe_bind; [|intros; apply safe_track_result].
    unfold facetracker_track. apply safe_gets_bind. rewrite Ef. repeat safe_step.
  - unfold safe. rewrite bind_assoc. apply safe_bind.
    + apply safe_facetracker_new_track.
    + intros; apply safe_track_result.
Qed.

Lemma safe_track p i w : safe (track p i) w.
Proof.
  unfold track. apply safe_bind; [apply safe_track_frame|].
  intros a w1 o1 _. unfold rearm. repeat safe_step. apply safe_setTimeout.
Qed.

(** X9. Once [init] has bound the canvas and allocated the smoother, a
    tracking step never throws: whatever the tracker reports, [track]
    completes, and the canvas and the smoother are still there for the
    next step. *)
Theorem track_never_throws (p : Params.t) (i : Tick.t) (w : W.t) :
  W.canvasElement w <> None ->
  W.smoother w <> None ->
  value_of (track p i w) = Some tt /\
  W.canvasElement (world_of (track p i w)) <> None /\
  W.smoother (world_of (track p i w)) <> None.
Proof.
  intros Hc Hs.
  destruct (safe_track p i w (conj Hc Hs)) as ([] & w' & o & E & Hc' & Hs').
  rewrite E. cbn. auto.
Qed.

Lemma track_never_throws_witness :
  value_of (track params0 (tick_of (cs_result 30%float 40%float)) polling0)
    = Some tt.
Proof.
  apply (track_never_throws params0 (tick_of (cs_result 30%float 40%float)) polling0);
    discriminate.
Defined.

(** Before [init], a step stops at the unbound canvas. *)
Example track_before_init_throws :
  track params0 (tick_of (cs_result 30%float 40%float)) W.fresh
  = Thrown "ReferenceError"
      (W.set_facetracker (Some (FaceTracker.new None false false)) W.fresh)
      [FaceTrackerNew (FaceTracker.new None false false)].
Proof. reflexivity. Qed.

(** ** No exception in a whole session *)

Definition R_bound (w w' : W.t) (o : list Event) : Prop :=
  bound w -> bound w'.

Lemma R_bound_refl w : R_bound w w [].
Proof. unfold R_bound. auto. Qed.

Lemma R_bound_trans w1 w2 w3 o1 o2 :
  R_bound w1 w2 o1 -> R_bound w2 w3 o2 -> R_bound w1 w3 (o1 ++ o2).
Proof. unfold R_bound. auto. Qed.

Lemma perform_bound p a w : holds R_bound (perform p a) w.
Proof.
  walk R_bound_refl R_bound_trans.
  all: finish_prim; unfold R_bound, bound; cbn; intuition congruence.
Qed.

(** Either [init] has run, or nothing was ever started. *)
Definition ready_or_idle (w : W.t) : Prop :=
  bound w \/ (W.this_initialized w = false /\ W.timers w = []).

(** A pending timeout that fires runs its callback in the world without
    it. *)
Lemma fire_pending p id i w t :
  find_timer id w = Some t ->
  fire p id i w =
  match Timer.callback t with
  | CbTrack => track p (Probe.tick i)
  | CbStarter => starter p i
  end (W.set_timers
         (filter (fun t' => negb (Nat.eqb (Timer.id t') id)) (W.timers w)) w).
Proof.
  intros Ef. unfold fire, bind, gets, clearTimeout, modify. rewrite Ef.
  match goal with
  | |- _ = ?m ?w0 => destruct (m w0)
  end; reflexivity.
Qed.

Lemma perform_completes p a w :
  ready_or_idle w ->
  value_of (perform p a w) = Some tt /\ ready_or_idle (world_of (perform p a w)).
Proof.
  intros H. destruct a as [c|i| |id i]; cbn [perform].
  - unfold init, ready_or_idle, bound, headtrackerStatus. unfold_prims.
    destruct (Params.ui p); cbn; (split; [reflexivity|left; split; congruence]).
  - destruct (W.this_initialized w) eqn:Ei.
    + destruct H as [Hb|(E & _)]; [|congruence]. split.
      * unfold start, bind, gets. rewrite Ei. cbn.
        destruct (starter_completes p i w) as (w' & o & E). now rewrite E.
      * left. exact (perform_bound p (CallStart i) w Hb).
    + unfold start, bind, gets, ret. rewrite Ei. cbn. auto.
  - split.
    + unfold stop. unfold_prims. now destruct (W.detector w).
    + destruct H as [Hb|(E & T)].
      * left. exact (perform_bound p CallStop w Hb).
      * right. unfold stop. unfold_prims.
        destruct (W.detector w); cbn; rewrite T; auto.
  - destruct (find_timer id w) as [t|] eqn:Ef.
    + assert (Hb : bound w).
      { destruct H as [Hb|(_ & T)]; [exact Hb|].
        unfold find_timer in Ef. rewrite T in Ef. discriminate Ef. }
      split; [|left; exact (perform_bound p (Timeout id i) w Hb)].
      rewrite (fire_pending p id i w t Ef).
      destruct (Timer.callback t).
      * match goal with
        | |- value_of (track ?p ?i ?w0) = _ =>
            destruct (safe_track p i w0) as ([] & w' & o & E & _);
            [exact Hb|now rewrite E]
        end.
      * match goal with
        | |- value_of (starter ?p ?i ?w0) = _ =>
            destruct (starter_completes p i w0) as (w' & o & E); now rewrite E
        end.
    + unfold fire, bind, gets, ret. rewrite Ef. cbn. auto.
Qed.

(** X10. In a session that starts from a fresh Tracker, no call of
    [init], [start()] or [stop()] and no timeout ever ends in an
    exception, in whatever order they come and whatever the tracker and
    the probe report. *)
Theorem session_never_throws (p : Params.t) (l : list Action) (a : Action) :
  value_of (perform p a (fst (exec p l W.fresh))) = Some tt.
Proof.
  assert (H : forall l w, ready_or_idle w -> ready_or_idle (fst (exec p l w))).
  { clear. intros l. induction l as [|a l IH]; intros w Hw; [exact Hw|].
    cbn. apply IH. now apply perform_completes. }
  apply perform_completes. apply H. right. split; reflexivity.
Qed.

(** ** The earliest construction of the estimator *)

Lemma headDiagonal_push_filling v hd :
  List.length hd < 6 -> headDiagonal_push v hd = (hd ++ [v], false).
Proof.
  intros H. unfold headDiagonal_push.
  now replace (Nat.ltb (List.length hd) 6) with true
    by (symmetry; apply Nat.ltb_lt; exact H).
Qed.

Lemma track_lock_filling p i f w :
  List.length (W.headDiagonal w) < 6 ->
  let r := track_lock p i f w in
  bootstraps (out_of r) = [] /\
  List.length (W.headDiagonal (world_of r)) <= S (List.length (W.headDiagonal w)).
Proof.
  destruct w as [ce u sm ft hp det dt fv rn ff fr hd st ti tm nt].
  destruct p as [pu ps pr pd pi po pc ph pf].
  cbn [W.headDiagonal]. intros H.
  pose proof (fun v => headDiagonal_push_filling v hd H) as E.
  unfold track_lock, announce_found, smooth_step, track_headposition,
    headtrackerStatus.
  destruct ff, ps, sm as [[a iv [|]]|], hp as [h|], ph; unfold_prims;
    cbn -[headDiagonal_push bootstrap]; rewrite ?E;
    cbn -[headDiagonal_push bootstrap];
    rewrite ?length_app; cbn; split; try reflexivity; lia.
Qed.

(** No estimator is constructed and the array is left alone. *)
Definition R_no_bootstrap (w w' : W.t) (o : list Event) : Prop :=
  bootstraps o = [] /\ W.headDiagonal w' = W.headDiagonal w.

Lemma R_no_bootstrap_refl w : R_no_bootstrap w w [].
Proof. split; reflexivity. Qed.

Lemma R_no_bootstrap_trans w1 w2 w3 o1 o2 :
  R_no_bootstrap w1 w2 o1 -> R_no_bootstrap w2 w3 o2 ->
  R_no_bootstrap w1 w3 (o1 ++ o2).
Proof.
  unfold R_no_bootstrap. intros (A & B) (C & D).
  rewrite bootstraps_app, A, C. split; [reflexivity|congruence].
Qed.

Lemma track_no_bootstrap p i w :
  valid_lock (Tick.faceObj i) = false -> holds R_no_bootstrap (track p i) w.
Proof.
  intros Hv.
  walk_with
    ltac:(idtac;
          lazymatch goal with
          | |- holds _ (track_lock _ _ _) _ =>
              exfalso; unfold valid_lock, is_CS, has_confidence, degenerate in Hv;
              match goal with
              | Hc : negb (JS.eq (FaceObj.confidence _) _) = true,
                Hd : String.eqb _ "CS" = true,
                Hg : (_ || _) = false |- _ =>
                  rewrite Hd, Hc, Hg in Hv; discriminate Hv
              end
          end)
    R_no_bootstrap_refl R_no_bootstrap_trans.
  all: finish_prim; split; reflexivity.
Qed.

Lemma track_filling p i w :
  List.length (W.headDiagonal w) < 6 ->
  bootstraps (out_of (track p i w)) = [] /\
  List.length (W.headDiagonal (world_of (track p i w)))
  <= S (List.length (W.headDiagonal w)).
Proof.
  intros H. destruct (valid_lock (Tick.faceObj i)) eqn:Hv.
  - apply valid_lock_inv in Hv as (Hd & Hconf & Hdeg).
    destruct w as [ce u sm ft hp det dt fv rn ff fr hd st ti tm nt].
    cbn [W.headDiagonal] in *.
    unfold track, track_frame, track_CS. cbv zeta. rewrite Hd, Hconf, Hdeg.
    destruct p as [pu ps pr pd pi po pc ph pf].
    unfold rearm, facetracker_new, facetracker_track, headtrackerStatus.
    destruct ft as [ft|], ce as [c|], fr, pd; unfold_prims; cbn -[track_lock];
      try (split; [reflexivity|lia]);
      match goal with
      | |- context [track_lock ?p ?i ?f ?w0] =>
          pose proof (track_lock_filling p i f w0 H) as K;
          destruct (track_lock p i f w0) as [[] w1 o1|e w1 o1]
      end;
      cbn in K; destruct K as (A & B); cbn;
      try (destruct (W.run w1)); cbn;
      rewrite ?bootstraps_app, ?A; cbn; split; try reflexivity; exact B.
  - destruct (track_no_bootstrap p i w Hv) as (A & B). rewrite A, B.
    split; [reflexivity|lia].
Qed.

(** X11. While [headDiagonal] holds fewer than six samples no step
    constructs an estimator, and a step adds at most one sample; so a
    Tracker whose array holds [n] samples constructs no estimator during
    its next [6 - n] steps, whatever they see: on a fresh Tracker the
    seventh tracked face is the earliest that can construct one. *)
Theorem no_estimator_while_filling (p : Params.t) (l : list Tick.t) (w : W.t) :
  List.length (W.headDiagonal w) + List.length l <= 6 ->
  bootstraps (snd (steps p l w)) = [].
Proof.
  revert w. induction l as [|i l IH]; intros w H; [reflexivity|].
  cbn in *. destruct (track_filling p i w) as (A & B); [lia|].
  rewrite bootstraps_app, A. apply IH. lia.
Qed.

(** Six tracked faces of one size after [start()]: no estimator; the
    seventh constructs it. *)
Definition six_faces : list Tick.t :=
  repeat (tick_of (cs_result 30%float 40%float)) 6.

Lemma no_estimator_while_filling_witness :
  bootstraps (snd (steps params0 six_faces polling0)) = [].
Proof.
  apply (no_estimator_while_filling params0 six_faces polling0). cbn. lia.
Defined.

Example estimator_on_seventh_face :
  List.length
    (bootstraps
       (snd (steps params0 (six_faces ++ [tick_of (cs_result 30%float 40%float)])
               polling0))) = 1.
Proof. reflexivity. Qed.

(** ** Runs of camshift results without confidence *)

(** A camshift result whose confidence is 0. *)
Definition blank (f : FaceObj.t) : bool :=
  is_CS f && JS.eq (FaceObj.confidence f) 0%float.

(** What a session shows of itself besides the face tracker and the
    timeouts. *)
Definition visible (w : W.t) :=
  (W.run w, W.this_initialized w, W.detectionTimer w, W.faceFound w, W.fov w,
   W.firstRun w, W.headposition w, W.smoother w, W.headDiagonal w, W.status w,
   W.canvasElement w).

Lemma track_blank p i w c :
  W.canvasElement w = Some c ->
  blank (Tick.faceObj i) = true ->
  out_of (track p i w) =
    match W.facetracker w with
    | Some _ => [FaceTrackerTrack]
    | None =>
        [FaceTrackerNew (FaceTracker.new None (Params.debug p) (Params.calcAngles p));
         FaceTrackerTrack]
    end /\
  visible (world_of (track p i w)) = visible w.
Proof.
  unfold blank. intros Hc Hb. apply andb_prop in Hb as [Hd Hconf].
  apply is_CS_detection in Hd.
  destruct w as [ce u sm ft hp det dt fv rn ff fr hd st ti tm nt].
  cbn in Hc. subst ce.
  unfold track, track_frame. cbv zeta. rewrite Hd, Hconf.
  destruct p as [pu ps pr pd pi po pc ph pf].
  destruct ft as [ft|], fr, rn; split; reflexivity.
Qed.

(** X12. A run of camshift results with confidence 0, however long, in a
    session whose canvas is bound, dispatches no status and leaves [run],
    [this.initialized], [detectionTimer], [faceFound], [fov], [firstRun],
    [headposition], the smoother, [headDiagonal] and [this.status] as they
    were; all it does is to advance the face tracker and re-arm the
    poll. *)
Theorem blank_run_changes_nothing (p : Params.t) (l : list Tick.t) (w : W.t) (c : Canvas.t) :
  W.canvasElement w = Some c ->
  forallb (fun i => blank (Tick.faceObj i)) l = true ->
  statuses (snd (steps p l w)) = [] /\
  visible (fst (steps p l w)) = visible w.
Proof.
  revert w. induction l as [|i l IH]; intros w Hc Hl; [split; reflexivity|].
  cbn in Hl. apply andb_prop in Hl as [Hi Hl].
  destruct (track_blank p i w c Hc Hi) as (A & B).
  cbn. assert (Hc' : W.canvasElement (world_of (track p i w)) = Some c).
  { unfold visible in B. injection B as _ _ _ _ _ _ _ _ _ _ B. congruence. }
  destruct (IH _ Hc' Hl) as (C & D).
  rewrite statuses_app, C, D, B, A. split; [|reflexivity].
  now destruct (W.facetracker w).
Qed.

Lemma blank_run_changes_nothing_witness :
  statuses (snd (steps params0 (repeat (tick_of cs_blank) 5) tracking0)) = [] /\
  visible (fst (steps params0 (repeat (tick_of cs_blank) 5) tracking0))
    = visible tracking0.
Proof.
  exact (blank_run_changes_nothing params0 (repeat (tick_of cs_blank) 5)
           tracking0 canvas0 eq_refl eq_refl).
Defined.

(** ** Feeding the estimator *)

(** The samples handed to [headposition.track] among a list of events. *)
Fixpoint pose_updates (l : list Event) : list FaceObj.t :=
  match l with
  | [] => []
  | HeadPositionTrack f :: l' => f :: pose_updates l'
  | _ :: l' => pose_updates l'
  end.

(** X13. While an estimator exists and head positions are wanted, a step
    on a tracked face (canvas bound, smoother allocated) hands the
    estimator exactly one sample: what [smoother.smooth] returned when
    smoothing is on, the tracking object itself otherwise.  It constructs
    no estimator, keeps the one there is and leaves [headDiagonal]
    alone. *)
Theorem estimator_fed_once (p : Params.t) (i : Tick.t) (w : W.t)
    (c : Canvas.t) (s : Smoother.t) (h : HeadPosition.t) :
  W.canvasElement w = Some c ->
  W.smoother w = Some s ->
  W.headposition w = Some h ->
  Params.headPosition p = true ->
  valid_lock (Tick.faceObj i) = true ->
  let r := track p i w in
  value_of r = Some tt /\
  pose_updates (out_of r) =
    [if Params.smoothing p then Tick.smoothed i else Tick.faceObj i] /\
  bootstraps (out_of r) = [] /\
  W.headposition (world_of r) = Some h /\
  W.headDiagonal (world_of r) = W.headDiagonal w.
Proof.
  intros Hc Hs Hh Hp Hl r. subst r.
  apply valid_lock_inv in Hl as (Hd & Hconf & Hdeg).
  destruct w as [ce u sm ft hp det dt fv rn ff fr hd st ti tm nt].
  cbn in Hc, Hs, Hh. subst ce sm hp.
  destruct p as [pu ps pr pd pi po pc ph pf]. cbn in Hp. subst ph.
  unfold track, track_frame, track_CS. cbv zeta. rewrite Hd, Hconf, Hdeg.
  destruct s as [a iv ini].
  destruct ft as [ft|], fr, pd, ff, ps, ini, rn; repeat split; reflexivity.
Qed.

(** The session [running0] with an estimator in place. *)
Definition posing0 : W.t :=
  W.set_headposition
    (Some (HeadPosition.mk (cs_result 30%float 40%float) 320%float 240%float
             None 11.5%float))
    running0.

Lemma estimator_fed_once_witness :
  pose_updates
    (out_of (track params0
               (Tick.mk (cs_result 30%float 40%float) 0 0
                  (cs_result 29%float 39%float) 60%float) posing0))
  = [cs_result 29%float 39%float].
Proof.
  exact (proj1 (proj2
           (estimator_fed_once params0
              (Tick.mk (cs_result 30%float 40%float) 0 0
                 (cs_result 29%float 39%float) 60%float)
              posing0 canvas0 _ _ eq_refl eq_refl eq_refl eq_refl eq_refl))).
Defined.

(** ** A step that fires after [stop()] *)

Definition R_run_off (w w' : W.t) (o : list Event) : Prop :=
  W.run w = false -> W.run w' = false.

Lemma R_run_off_refl w : R_run_off w w [].
Proof. unfold R_run_off. auto. Qed.

Lemma R_run_off_trans w1 w2 w3 o1 o2 :
  R_run_off w1 w2 o1 -> R_run_off w2 w3 o2 -> R_run_off w1 w3 (o1 ++ o2).
Proof. unfold R_run_off. auto. Qed.

Lemma track_frame_run_off p i w : holds R_run_off (track_frame p i) w.
Proof.
  walk R_run_off_refl R_run_off_trans.
  all: finish_prim; unfold R_run_off; cbn; auto.
Qed.

(** X14. A step that runs while [run] is clear (a timeout of a second
    polling chain that [stop()] did not clear, say) does not bring the
    poll back: [run] is still clear afterwards and the step arms no
    timeout. *)
Theorem stray_step_does_not_rearm (p : Params.t) (i : Tick.t) (w : W.t) :
  W.run w = false ->
  W.run (world_of (track p i w)) = false /\
  W.next_timer (world_of (track p i w)) = W.next_timer w /\
  incl (W.timers (world_of (track p i w))) (W.timers w).
Proof.
  intros Hr. unfold track. rewrite bind_world.
  pose proof (track_frame_run_off p i w) as H.
  pose proof (track_frame_no_timeout p i w) as K.
  unfold holds, R_run_off, R_no_timeout in H, K.
  destruct (track_frame p i w) as [[] w1 o1|e w1 o1]; cbn in H, K;
    specialize (H Hr); destruct K as (A & B); [|auto].
  unfold rearm. unfold_prims. rewrite H. cbn. auto.
Qed.

(** Two calls of [start()], then [stop()]: the timeout of the first chain
    is still pending; when it fires the step runs and the poll stays
    off. *)
Definition stopped_with_stray : W.t :=
  fst (exec params0
         [CallStart (probe_of (cs_result 30%float 40%float)); CallStop] running0).

Lemma stray_step_does_not_rearm_witness :
  W.run (world_of (track params0 (tick_of (cs_result 30%float 40%float))
                     stopped_with_stray)) = false.
Proof.
  exact (proj1 (stray_step_does_not_rearm params0
                  (tick_of (cs_result 30%float 40%float)) stopped_with_stray
                  eq_refl)).
Defined.

Example stray_timeout_survives_stop :
  map Timer.id (W.timers stopped_with_stray) = [0] /\
  W.detector stopped_with_stray = Some 1 /\
  statuses (snd (exec params0 [Timeout 0 (probe_of (cs_result 30%float 40%float))]
                   stopped_with_stray)) = ["found"].
Proof. repeat split. Qed.
